(** * Proxy checker (tt.py): a shallow embedding and its properties

    The program reads candidate proxy addresses from a text file, probes
    each one with a single HTTP GET on a thread pool, sorts the answers
    into a working and a failed list, prints a summary and saves the
    working addresses.

    Layout of this development:
    - [PyStr]: Python [str] values as lists of code points, with
      [str.strip] and the [in] substring test;
    - [PyExc]: numbers, exception classes, raised values, [isinstance];
    - [ThreadPool]: the interleavings of the worker pool as a step
      relation;
    - [Checker]: the [ProxyChecker] class, its methods and [main], written
      in a small state-and-exception monad over the main thread's state,
      with the file system, the network, the clock and the completion
      order of the probes supplied by an environment;
    - [Trace] and [Demo]: functions that describe what a run leaves
      behind, and a few concrete runs;
    - facts about strings, the checker's stages and the pool, then the
      properties of the program.

    What is left out: output goes to a list of structured lines rather
    than formatted text; [print] itself never fails; an interrupt
    reaches the program only as an exception raised by one of the
    environment's operations; the content of a file is its text, so
    that what a failed flush leaves behind is a cut of the text at some
    character. *)

From Stdlib Require Import ZArith NArith List String Ascii Lia.
From Stdlib Require Import Floats.PrimFloat Uint63.
From stdpp Require Import gmap list strings.

Local Open Scope list_scope.

(* ===================================================================== *)
(** ** Python strings *)
(* ===================================================================== *)

Module PyStr.

(** A Python [str] is a sequence of Unicode code points. *)
Abbreviation pystr := (list N).

(** A literal of the source, character by character. *)
Definition lit (s : string) : pystr :=
  map N_of_ascii (list_ascii_of_string s).

(** The line feed, [\n]. *)
Definition newline : pystr := [10%N].

(** [str.isspace] on one code point: the characters [str.strip()] removes.
    U+0009..U+000D, U+001C..U+0020, U+0085, U+00A0, U+1680,
    U+2000..U+200A, U+2028, U+2029, U+202F, U+205F, U+3000. *)
Definition isspace (c : N) : bool :=
  ((9 <=? c) && (c <=? 13) || (28 <=? c) && (c <=? 32)
   || (c =? 133) || (c =? 160) || (c =? 5760)
   || (8192 <=? c) && (c <=? 8202)
   || (c =? 8232) || (c =? 8233) || (c =? 8239) || (c =? 8287)
   || (c =? 12288))%N.

Fixpoint lstrip (s : pystr) : pystr :=
  match s with
  | [] => []
  | c :: s' => if isspace c then lstrip s' else s
  end.

Definition rstrip (s : pystr) : pystr := rev (lstrip (rev s)).

(** [s.strip()] *)
Definition strip (s : pystr) : pystr := rstrip (lstrip s).

(** Truthiness of a string: [if s] holds for the non-empty ones. *)
Definition truthy (s : pystr) : bool :=
  match s with [] => false | _ :: _ => true end.

Fixpoint startswith (p s : pystr) : bool :=
  match p, s with
  | [], _ => true
  | _ :: _, [] => false
  | c :: p', d :: s' => (c =? d)%N && startswith p' s'
  end.

(** [needle in hay] *)
Fixpoint contains (needle hay : pystr) : bool :=
  startswith needle hay ||
  match hay with
  | [] => false
  | _ :: hay' => contains needle hay'
  end.

(** A string made of whitespace only (the empty one included). *)
Definition blank (s : pystr) : bool := forallb isspace s.

End PyStr.
Export PyStr.

(* ===================================================================== *)
(** ** Python numbers, exceptions and results *)
(* ===================================================================== *)

Module PyExc.

(** The third component of a probe result is either the [float]
    difference of two clock readings or the [int] literal [0]. *)
Inductive pynum :=
| PyInt (z : Z)
| PyFloat (f : float).

(** The exception classes the program names, raises or can meet.
    [ConnectionError], [ProxyError], [Timeout], [ConnectTimeout],
    [ReadTimeout] and [RequestException] are those of
    [requests.exceptions]. *)
Inductive exc_class :=
| BaseException
| Exception
| OSError
| FileNotFoundError
| RequestException
| ConnectionError
| ProxyError
| Timeout
| ConnectTimeout
| ReadTimeout
| KeyboardInterrupt
| SystemExit
| ZeroDivisionError
| ValueError
| OtherClass (name : string).

#[global] Instance exc_class_eq_dec : EqDecision exc_class.
Proof. solve_decision. Defined.

(** A raised value: the classes of its type in method resolution order,
    or the [SystemExit] that [sys.exit(code)] raises. *)
Inductive pyexc :=
| PyExc (mro : list exc_class)
| SysExit (code : Z).

Definition exc_mro (e : pyexc) : list exc_class :=
  match e with
  | PyExc mro => mro
  | SysExit _ => [SystemExit; BaseException]
  end.

(** [isinstance(e, c)], the test an [except c:] clause makes. *)
Definition isinstance (e : pyexc) (c : exc_class) : bool :=
  bool_decide (c ∈ exc_mro e).

(** The exceptions of the standard library and of [requests] that occur
    below, with their class hierarchy. *)
Definition proxy_error : pyexc :=
  PyExc [ProxyError; ConnectionError; RequestException; OSError;
         Exception; BaseException].
Definition connect_timeout : pyexc :=
  PyExc [ConnectTimeout; ConnectionError; Timeout; RequestException;
         OSError; Exception; BaseException].
Definition read_timeout : pyexc :=
  PyExc [ReadTimeout; Timeout; RequestException; OSError; Exception;
         BaseException].
Definition connection_error : pyexc :=
  PyExc [ConnectionError; RequestException; OSError; Exception;
         BaseException].
Definition file_not_found_error : pyexc :=
  PyExc [FileNotFoundError; OSError; Exception; BaseException].
Definition os_error : pyexc :=
  PyExc [OSError; Exception; BaseException].
Definition zero_division_error : pyexc :=
  PyExc [ZeroDivisionError; OtherClass "ArithmeticError"; Exception;
         BaseException].
Definition value_error : pyexc :=
  PyExc [ValueError; Exception; BaseException].
Definition keyboard_interrupt : pyexc :=
  PyExc [KeyboardInterrupt; BaseException].

(** What a call does: it returns a value or raises. *)
Inductive outcome (A : Type) :=
| Return (a : A)
| Raise (e : pyexc).
Arguments Return {A} a.
Arguments Raise {A} e.

(** [len(a) / len(b)]: true division of two non-negative integers, a
    [float]; dividing by zero raises [ZeroDivisionError].  The conversion
    is exact for operands below 2^53. *)
Definition float_of_nat (n : nat) : float :=
  PrimFloat.of_uint63 (Uint63.of_Z (Z.of_nat n)).

Definition py_truediv (a b : nat) : outcome float :=
  match b with
  | O => Raise zero_division_error
  | S _ => Return (PrimFloat.div (float_of_nat a) (float_of_nat b))
  end.

End PyExc.
Export PyExc.

(* ===================================================================== *)
(** ** The worker pool *)
(* ===================================================================== *)

(** [concurrent.futures.ThreadPoolExecutor] as the program uses it: the
    main thread submits work items, worker threads take them from the
    queue one at a time and run them.  The pool is the standard
    library's; its behaviour is written here as a step relation after
    [submit], [_adjust_thread_count] and [_worker] of
    [concurrent/futures/thread.py], work items being named by the number
    of their future. *)
Module ThreadPool.

Record pool := {
  max_workers : Z;
  work_queue : list nat;            (* items waiting, oldest first *)
  threads : list (option nat);      (* per worker: the item it runs *)
  idle_semaphore : nat;
  finished : list nat               (* futures done, oldest first *)
}.

(** [ThreadPoolExecutor(max_workers=n)]: no thread is started yet; a
    count that is not positive is a [ValueError]. *)
Definition ThreadPoolExecutor (n : Z) : outcome pool :=
  if (n <=? 0)%Z then Raise value_error
  else Return {| max_workers := n; work_queue := []; threads := [];
                 idle_semaphore := 0; finished := [] |}.

(** [_adjust_thread_count]: an idle worker is reused if the semaphore
    says there is one, otherwise a thread is started unless
    [max_workers] of them exist. *)
Definition adjust_thread_count (p : pool) : pool :=
  match idle_semaphore p with
  | S n =>
      {| max_workers := max_workers p; work_queue := work_queue p;
         threads := threads p; idle_semaphore := n;
         finished := finished p |}
  | O =>
      if (Z.of_nat (length (threads p)) <? max_workers p)%Z then
        {| max_workers := max_workers p; work_queue := work_queue p;
           threads := threads p ++ [None]; idle_semaphore := 0;
           finished := finished p |}
      else p
  end.

(** [executor.submit(fn, arg)] for the future numbered [i]. *)
Definition submit (i : nat) (p : pool) : pool :=
  adjust_thread_count
    {| max_workers := max_workers p; work_queue := work_queue p ++ [i];
       threads := threads p; idle_semaphore := idle_semaphore p;
       finished := finished p |}.

(** Worker [t] gets item [i] from the queue and runs it. *)
Definition take (t i : nat) (rest : list nat) (p : pool) : pool :=
  {| max_workers := max_workers p; work_queue := rest;
     threads := <[t := Some i]> (threads p);
     idle_semaphore := idle_semaphore p; finished := finished p |}.

(** Worker [t] is through with item [i]: the future is done and the
    worker counts as idle again. *)
Definition finish (t i : nat) (p : pool) : pool :=
  {| max_workers := max_workers p; work_queue := work_queue p;
     threads := <[t := None]> (threads p);
     idle_semaphore := S (idle_semaphore p);
     finished := finished p ++ [i] |}.

(** A configuration: the futures the dictionary comprehension has still
    to submit, and the pool. *)
Definition config : Type := list nat * pool.

(** One step of some thread.  The main thread submits in order; the
    workers interleave with it and with each other in any way. *)
Inductive step : config -> config -> Prop :=
| step_submit i todo p :
    step (i :: todo, p) (todo, submit i p)
| step_take t i rest todo p :
    threads p !! t = Some None ->
    work_queue p = i :: rest ->
    step (todo, p) (todo, take t i rest p)
| step_finish t i todo p :
    threads p !! t = Some (Some i) ->
    step (todo, p) (todo, finish t i p).

Inductive reachable (c0 : config) : config -> Prop :=
| reach_start : reachable c0 c0
| reach_step c c' : reachable c0 c -> step c c' -> reachable c0 c'.

(** The probes in flight: the work items some worker is running. *)
Definition running (p : pool) : list nat := omap id (threads p).

Definition in_flight (p : pool) : nat := length (running p).

(** The pool never has more threads than [max_workers]. *)
Definition threads_bounded (p : pool) : Prop :=
  (Z.of_nat (length (threads p)) <= max_workers p)%Z.

(** The items to be submitted, queued, running and finished together
    are always the items the dispatcher started with. *)
Definition all_work (c : config) : list nat :=
  c.1 ++ work_queue c.2 ++ running c.2 ++ finished c.2.

End ThreadPool.

(* ===================================================================== *)
(** ** The checker *)
(* ===================================================================== *)

Module Checker.

(** *** Configuration *)

(** [TIMEOUT = 10] is only read; [TEST_URL] and [MAX_WORKERS] are module
    globals that [main] assigns from the command line, so they travel as
    a record. *)
Definition TIMEOUT : Z := 10.

Record globals := {
  TEST_URL : pystr;
  MAX_WORKERS : Z
}.

Definition initial_globals : globals :=
  {| TEST_URL := lit "http://www.google.com"; MAX_WORKERS := 50 |}.

(** *** The object *)

Record ProxyChecker := {
  proxy_file : pystr;
  output_file : pystr;
  timeout : Z;
  working_proxies : list pystr;
  failed_proxies : list pystr;
  total_proxies : nat
}.

(** [output_file or "working_proxies.txt"]: [None] and the empty string
    both give the default. *)
Definition __init__ (proxy_file : pystr) (output_file : option pystr)
    (timeout : Z) : ProxyChecker :=
  {| proxy_file := proxy_file;
     output_file :=
       match output_file with
       | Some o => if truthy o then o else lit "working_proxies.txt"
       | None => lit "working_proxies.txt"
       end;
     timeout := timeout;
     working_proxies := [];
     failed_proxies := [];
     total_proxies := 0 |}.

(** *** What the program prints

    One constructor per [print] call of the source, holding the values
    the line is formatted from. *)
Inductive out_line :=
| LoadedLine (n : nat) (file : pystr)          (* [+] Cargados n proxies desde file *)
| NotFoundLine (file : pystr)                  (* [!] Error: No se encontro el archivo file *)
| ReadErrorLine (e : pyexc)                    (* [!] Error al leer el archivo: e *)
| StartLine (workers : Z)                      (* [*] Iniciando verificacion con n workers... *)
| TestUrlLine (url : pystr)                    (* [*] URL de prueba: url *)
| TimeoutLine (t : Z)                          (* [*] Timeout: ts *)
| ProxyOkLine (proxy : pystr) (response_time : pynum) (checked total : nat)
                                               (* [v] proxy - Funciona (t s) [checked/total] *)
| ProxyFailLine (proxy : pystr) (checked total : nat)
                                               (* [x] proxy - No funciona [checked/total] *)
| RuleLine                                     (* ====...==== *)
| CompletedLine (elapsed_total : float)        (* [+] Verificacion completada en t s *)
| WorkingCountLine (working total : nat)       (* [+] Proxies funcionando: w/total *)
| FailedCountLine (failed total : nat)         (* [+] Proxies fallidos: f/total *)
| SuccessRateLine (rate : float)               (* [+] Tasa de exito: rate% *)
| NothingToSaveLine                            (* [!] No hay proxies funcionando para guardar *)
| SavedLine (file : pystr)                     (* [+] Proxies funcionando guardados en: file *)
| SaveErrorLine (e : pyexc)                    (* [!] Error al guardar los proxies: e *)
| TitleLine                                    (* PROXY CHECKER *)
| NoProxiesLine                                (* [!] No se encontraron proxies en el archivo *)
| InterruptedLine.                             (* [!] Proceso interrumpido por el usuario *)

(** *** The outside world *)

(** The keyword arguments of the one [requests.get] call. *)
Record request := {
  req_url : pystr;
  req_proxies : gmap pystr pystr;
  req_timeout : Z;
  req_allow_redirects : bool
}.

(** [requests.get] returns a response with a status code or raises. *)
Inductive get_outcome :=
| Response (status_code : Z)
| GetRaises (e : pyexc).

(** What one probe meets in its worker thread: the two readings of
    [time.time()] and the behaviour of the network. *)
Record probe_env := {
  clock_start : float;
  clock_end : float;
  http_get : request -> get_outcome
}.

(** Opening the input file and iterating over it yields its lines (each
    with its line end) or raises. *)
Inductive read_outcome :=
| ReadLines (lines : list pystr)
| ReadRaises (e : pyexc).

(** Everything the run does not decide itself.  [env_probe i] is what
    the [i]-th submitted probe meets; [env_started] drives the order in
    which the workers get to their requests and [env_sched] the order
    in which the futures complete.  The output file is buffered:
    [env_flushed] is how many characters of the text handed to it are
    on the disk after a write or the close has failed. *)
Record environment := {
  env_read : pystr -> read_outcome;
  env_open_w : pystr -> option pyexc;
  env_write : nat -> option pyexc;
  env_close : option pyexc;
  env_flushed : nat;
  env_clock : nat -> float;
  env_probe : nat -> probe_env;
  env_sched : list nat;
  env_started : list nat
}.

(** *** The state of the main thread and its monad *)

Record mstate := {
  this : ProxyChecker;
  stdout : list out_line;
  files : gmap pystr pystr;
  sent : list request;
  ticks : nat
}.

Definition M (A : Type) : Type := mstate -> outcome A * mstate.

Definition ret {A} (a : A) : M A := fun st => (Return a, st).

Definition bind {A B} (m : M A) (k : A -> M B) : M B :=
  fun st =>
    match m st with
    | (Return a, st') => k a st'
    | (Raise e, st') => (Raise e, st')
    end.

Definition raise {A} (e : pyexc) : M A := fun st => (Raise e, st).

Definition lift {A} (o : outcome A) : M A := fun st => (o, st).

Notation "'let*' x ':=' m 'in' k" := (bind m (fun x => k))
  (at level 10, x name, m at level 100, k at level 200).
Notation "m ';;' k" := (bind m (fun _ => k))
  (at level 100, k at level 200, right associativity).

(** [try: body  except Exception as e: handler] *)
Definition try_except_Exception {A} (body : M A) (handler : pyexc -> M A)
    : M A :=
  fun st =>
    match body st with
    | (Return a, st') => (Return a, st')
    | (Raise e, st') =>
        if isinstance e Exception then handler e st' else (Raise e, st')
    end.

Definition get_self : M ProxyChecker := fun st => (Return (this st), st).

Definition set_this (c : ProxyChecker) (st : mstate) : mstate :=
  {| this := c; stdout := stdout st; files := files st; sent := sent st;
     ticks := ticks st |}.

Definition modify_self (f : ProxyChecker -> ProxyChecker) : M unit :=
  fun st => (Return tt, set_this (f (this st)) st).

Definition print (l : out_line) : M unit :=
  fun st =>
    (Return tt,
     {| this := this st; stdout := stdout st ++ [l]; files := files st;
        sent := sent st; ticks := ticks st |}).

(** [time.time()] in the main thread. *)
Definition time_time (env : environment) : M float :=
  fun st =>
    (Return (env_clock env (ticks st)),
     {| this := this st; stdout := stdout st; files := files st;
        sent := sent st; ticks := S (ticks st) |}).

(** [sys.exit(code)] *)
Definition sys_exit {A} (code : Z) : M A := raise (SysExit code).

Definition set_total_proxies (n : nat) (c : ProxyChecker) : ProxyChecker :=
  {| proxy_file := proxy_file c; output_file := output_file c;
     timeout := timeout c; working_proxies := working_proxies c;
     failed_proxies := failed_proxies c; total_proxies := n |}.

Definition append_working (p : pystr) (c : ProxyChecker) : ProxyChecker :=
  {| proxy_file := proxy_file c; output_file := output_file c;
     timeout := timeout c; working_proxies := working_proxies c ++ [p];
     failed_proxies := failed_proxies c; total_proxies := total_proxies c |}.

Definition append_failed (p : pystr) (c : ProxyChecker) : ProxyChecker :=
  {| proxy_file := proxy_file c; output_file := output_file c;
     timeout := timeout c; working_proxies := working_proxies c;
     failed_proxies := failed_proxies c ++ [p];
     total_proxies := total_proxies c |}.

(** *** load_proxies *)

(** [[line.strip() for line in f if line.strip()]] *)
Definition stripped_lines (lines : list pystr) : list pystr :=
  map strip (List.filter (fun line => truthy (strip line)) lines).

Definition load_proxies (env : environment) : M (list pystr) :=
  let* self := get_self in
  match env_read env (proxy_file self) with
  | ReadLines lines =>
      let proxies := stripped_lines lines in
      modify_self (set_total_proxies (length proxies));;
      print (LoadedLine (length proxies) (proxy_file self));;
      ret proxies
  | ReadRaises e =>
      if isinstance e FileNotFoundError then
        print (NotFoundLine (proxy_file self));;
        sys_exit 1
      else if isinstance e Exception then
        print (ReadErrorLine e);;
        sys_exit 1
      else raise e
  end.

(** *** check_proxy *)

(** The proxy URL of the probe: [http://] is put in front of an address
    without [://]. *)
Definition proxy_url_of (proxy : pystr) : pystr :=
  if negb (contains (lit "://") proxy) then lit "http://" ++ proxy
  else proxy.

Definition probe_request (g : globals) (self : ProxyChecker)
    (proxy : pystr) : request :=
  let proxy_url := proxy_url_of proxy in
  let proxies : gmap pystr pystr :=
    <[lit "https" := proxy_url]> (<[lit "http" := proxy_url]> ∅) in
  {| req_url := TEST_URL g;
     req_proxies := proxies;
     req_timeout := timeout self;
     req_allow_redirects := true |}.

(** The method runs in a worker thread and touches nothing of the main
    thread's state: it gives its result and the requests it made. *)
Definition check_proxy (g : globals) (self : ProxyChecker) (w : probe_env)
    (proxy : pystr) : outcome (pystr * bool * pynum) * list request :=
  let req := probe_request g self proxy in
  let start_time := clock_start w in
  (match http_get w req with
   | Response status_code =>
       let elapsed := PrimFloat.sub (clock_end w) start_time in
       if (status_code =? 200)%Z then Return (proxy, true, PyFloat elapsed)
       else Return (proxy, false, PyFloat elapsed)
   | GetRaises e =>
       if isinstance e ProxyError then Return (proxy, false, PyInt 0)
       else if isinstance e ConnectTimeout then Return (proxy, false, PyInt 0)
       else if isinstance e ReadTimeout then Return (proxy, false, PyInt 0)
       else if isinstance e ConnectionError then Return (proxy, false, PyInt 0)
       else if isinstance e Exception then Return (proxy, false, PyInt 0)
       else Raise e
   end,
   [req]).

(** *** check_all_proxies *)

(** A future: its identity, what [result()] gives once it is done (a
    work item stores whatever its call returned or raised), and the
    requests the worker that runs the call sends. *)
Record future := {
  fut_id : nat;
  fut_result : outcome (pystr * bool * pynum);
  fut_requests : list request
}.

(** [executor.submit(self.check_proxy, proxy)]: a fresh future.  The
    call itself is run by some worker thread later on; submitting
    changes nothing in the main thread's state. *)
Definition submit (g : globals) (env : environment) (id : nat)
    (proxy : pystr) : M future :=
  let* self := get_self in
  let '(res, reqs) := check_proxy g self (env_probe env id) proxy in
  ret {| fut_id := id; fut_result := res; fut_requests := reqs |}.

(** [{executor.submit(self.check_proxy, proxy): proxy for proxy in proxies}]:
    the dictionary in insertion order; its keys are distinct objects. *)
Fixpoint submit_all (g : globals) (env : environment) (next : nat)
    (proxies : list pystr) : M (list (future * pystr)) :=
  match proxies with
  | [] => ret []
  | proxy :: rest =>
      let* f := submit g env next proxy in
      let* d := submit_all g env (S next) rest in
      ret ((f, proxy) :: d)
  end.

(** Completion order: at every step one of the futures still pending is
    the next to finish; the schedule says which. *)
Fixpoint drain {A} (fuel : nat) (sched : list nat) (pending : list A)
    : list A :=
  match fuel with
  | O => []
  | S fuel' =>
      let k := hd O sched `mod` length pending in
      match pending !! k with
      | Some x => x :: drain fuel' (tl sched) (delete k pending)
      | None => []
      end
  end.

(** [concurrent.futures.as_completed(fs)] *)
Definition as_completed {A} (sched : list nat) (fs : list A) : list A :=
  drain (length fs) sched fs.

(** [future.result()] *)
Definition result (f : future) : M (pystr * bool * pynum) :=
  lift (fut_result f).

(** The body of the [for future in as_completed(...)] loop; [checked] is
    the loop's counter. *)
Definition consume (f : future) (checked : nat) : M nat :=
  let* r := result f in
  let '(proxy, is_working, response_time) := r in
  let checked := checked + 1 in
  if (is_working : bool) then
    modify_self (append_working proxy);;
    let* self := get_self in
    print (ProxyOkLine proxy response_time checked (total_proxies self));;
    ret checked
  else
    modify_self (append_failed proxy);;
    let* self := get_self in
    print (ProxyFailLine proxy checked (total_proxies self));;
    ret checked.

Fixpoint consume_all (fs : list future) (checked : nat) : M nat :=
  match fs with
  | [] => ret checked
  | f :: rest =>
      let* checked := consume f checked in
      consume_all rest checked
  end.

(** Lines 110-115: the summary, with the success rate. *)
Definition print_summary (elapsed_total : float) : M unit :=
  print RuleLine;;
  print (CompletedLine elapsed_total);;
  let* self := get_self in
  print (WorkingCountLine (length (working_proxies self))
           (total_proxies self));;
  print (FailedCountLine (length (failed_proxies self))
           (total_proxies self));;
  let* q := lift (py_truediv (length (working_proxies self))
                    (total_proxies self)) in
  print (SuccessRateLine (PrimFloat.mul q (float_of_nat 100)));;
  print RuleLine.

(** [body] and then [cleanup], also when [body] raises. *)
Definition finally {A} (body : M A) (cleanup : M unit) : M A :=
  fun st =>
    match body st with
    | (o, st') =>
        match cleanup st' with
        | (Return _, st'') => (o, st'')
        | (Raise e, st'') => (Raise e, st'')
        end
    end.

(** Leaving the [with ThreadPoolExecutor(...)] block, normally or by an
    exception, waits for every submitted call ([shutdown(wait=True)]):
    by then the workers have sent all the requests of the batch, in the
    order in which they got to them. *)
Definition executor_exit (env : environment) (futures : list future)
    : M unit :=
  fun st =>
    (Return tt,
     {| this := this st; stdout := stdout st; files := files st;
        sent := sent st ++
                as_completed (env_started env)
                  (concat (map fut_requests futures));
        ticks := ticks st |}).

Definition check_all_proxies (g : globals) (env : environment)
    (proxies : list pystr) : M unit :=
  print (StartLine (MAX_WORKERS g));;
  print (TestUrlLine (TEST_URL g));;
  let* self := get_self in
  print (TimeoutLine (timeout self));;
  let* start_time := time_time env in
  let* executor := lift (ThreadPool.ThreadPoolExecutor (MAX_WORKERS g)) in
  let* future_to_proxy := submit_all g env 0 proxies in
  finally
    (consume_all (as_completed (env_sched env) (map fst future_to_proxy)) 0)
    (executor_exit env (map fst future_to_proxy));;
  let* now := time_time env in
  let elapsed_total := PrimFloat.sub now start_time in
  print_summary elapsed_total.

(** *** save_working_proxies *)

Definition set_file (path content : pystr) : M unit :=
  fun st =>
    (Return tt,
     {| this := this st; stdout := stdout st;
        files := <[path := content]> (files st); sent := sent st;
        ticks := ticks st |}).

(** [open(path, 'w', encoding='utf-8')]: creates or truncates. *)
Definition open_w (env : environment) (path : pystr) : M unit :=
  match env_open_w env path with
  | Some e => raise e
  | None => set_file path []
  end.

(** The [k]-th [f.write(s)] of the run.  The file is buffered: a write
    hands its text to the file object and puts nothing on the disk by
    itself.  [text] is what the file has been handed so far; a write
    that raises may still have got part of its own text out, so that
    text counts as handed over too. *)
Definition f_write (env : environment) (k : nat) (text s : pystr)
    : pystr * option pyexc :=
  (text ++ s, env_write env k).

(** [for proxy in self.working_proxies: f.write(...)] from the [k]-th
    write on: the text handed to the file and the exception that
    stopped the loop, if any. *)
Fixpoint write_lines (env : environment) (k : nat) (text : pystr)
    (proxies : list pystr) : pystr * option pyexc :=
  match proxies with
  | [] => (text, None)
  | proxy :: rest =>
      match f_write env k text (proxy ++ newline) with
      | (text', Some e) => (text', Some e)
      | (text', None) => write_lines env (S k) text' rest
      end
  end.

(** Leaving the [with open(...)] block closes the file, which flushes
    the buffer.  When no write failed and the close succeeds, all of
    the text is in the file.  When a write has failed ([failed]) or the
    close fails, the file holds the part of the text that was flushed,
    and the exception goes on: that of the close if it raises, else
    that of the write. *)
Definition f_close (env : environment) (path text : pystr)
    (failed : option pyexc) : M unit :=
  match failed, env_close env with
  | None, None => set_file path text
  | Some e, None => set_file path (take (env_flushed env) text);; raise e
  | _, Some e' => set_file path (take (env_flushed env) text);; raise e'
  end.

Definition save_working_proxies (env : environment) : M unit :=
  let* self := get_self in
  match working_proxies self with
  | [] => print NothingToSaveLine
  | _ :: _ =>
      try_except_Exception
        (open_w env (output_file self);;
         let '(text, failed) :=
           write_lines env 0 [] (working_proxies self) in
         f_close env (output_file self) text failed;;
         print (SavedLine (output_file self)))
        (fun e => print (SaveErrorLine e))
  end.

(** *** run and main *)

Definition run (g : globals) (env : environment) : M unit :=
  print RuleLine;;
  print TitleLine;;
  print RuleLine;;
  let* proxies := load_proxies env in
  match proxies with
  | [] => print NoProxiesLine
  | _ :: _ =>
      check_all_proxies g env proxies;;
      save_working_proxies env
  end.

(** The parsed command line. *)
Record args := {
  input_file : pystr;
  output : pystr;
  args_timeout : Z;
  workers : Z;
  url : pystr
}.

(** The defaults of the parser for a given input file. *)
Definition default_args (input_file : pystr) : args :=
  {| input_file := input_file;
     output := lit "working_proxies.txt";
     args_timeout := TIMEOUT;
     workers := MAX_WORKERS initial_globals;
     url := TEST_URL initial_globals |}.

(** [main] after [parse_args]; it gives the exit status of the process
    and the final state.  An exception nobody catches ends the process
    with status 1. *)
Definition main (env : environment) (a : args)
    (fs0 : gmap pystr pystr) : Z * mstate :=
  let g := {| TEST_URL := url a; MAX_WORKERS := workers a |} in
  let checker := __init__ (input_file a) (Some (output a)) (args_timeout a) in
  let st0 := {| this := checker; stdout := []; files := fs0; sent := [];
                ticks := 0 |} in
  match run g env st0 with
  | (Return _, st) => (0%Z, st)
  | (Raise e, st) =>
      if isinstance e KeyboardInterrupt then
        match (print InterruptedLine;; sys_exit (A:=unit) 0) st with
        | (_, st') => (0%Z, st')
        end
      else
        match e with
        | SysExit code => (code, st)
        | PyExc _ => (1%Z, st)
        end
  end.

End Checker.
Export Checker.

(* ===================================================================== *)
(** ** Reading the run: results, futures and output as functions *)
(* ===================================================================== *)

(** The functions below describe what the loops of the checker compute;
    the facts of the next part relate them to the program. *)
Module Trace.

(** The tuple [check_proxy] returns: [(proxy, funciona, tiempo)]. *)
Abbreviation result_t := (pystr * bool * pynum)%type.
Definition addr (r : result_t) : pystr := r.1.1.
Definition is_working (r : result_t) : bool := r.1.2.

(** A fault that one of the five handlers matches. *)
Definition handled (e : pyexc) : bool :=
  isinstance e ProxyError || isinstance e ConnectTimeout ||
  isinstance e ReadTimeout || isinstance e ConnectionError ||
  isinstance e Exception.

(** The dictionary the comprehension builds, as a function of the
    object and the environment. *)
Fixpoint futures_of (g : globals) (self : ProxyChecker) (env : environment)
    (next : nat) (proxies : list pystr) : list (future * pystr) :=
  match proxies with
  | [] => []
  | proxy :: rest =>
      ({| fut_id := next;
          fut_result := (check_proxy g self (env_probe env next) proxy).1;
          fut_requests :=
            (check_proxy g self (env_probe env next) proxy).2 |},
       proxy) :: futures_of g self env (S next) rest
  end.

(** The futures consumed before the first one whose [result()] raises,
    each with what it returned. *)
Fixpoint settled (fs : list future) : list (nat * result_t) :=
  match fs with
  | [] => []
  | f :: rest =>
      match fut_result f with
      | Return r => (fut_id f, r) :: settled rest
      | Raise _ => []
      end
  end.

(** The exception of the first future whose [result()] raises. *)
Fixpoint first_raise (fs : list future) : option pyexc :=
  match fs with
  | [] => None
  | f :: rest =>
      match fut_result f with
      | Return _ => first_raise rest
      | Raise e => Some e
      end
  end.

Definition failed_probe (r : result_t) : bool := negb (is_working r).

(** The object after the loop has sorted the results [rs] into its two
    lists. *)
Definition record_results (rs : list result_t) (c : ProxyChecker)
    : ProxyChecker :=
  {| proxy_file := proxy_file c; output_file := output_file c;
     timeout := timeout c;
     working_proxies :=
       working_proxies c ++ map addr (List.filter is_working rs);
     failed_proxies :=
       failed_proxies c ++ map addr (List.filter failed_probe rs);
     total_proxies := total_proxies c |}.

(** The progress lines the loop prints for [rs], the counter starting
    at [checked]. *)
Fixpoint progress_lines (rs : list result_t) (checked total : nat)
    : list out_line :=
  match rs with
  | [] => []
  | r :: rest =>
      (if is_working r
       then ProxyOkLine (addr r) r.2 (checked + 1) total
       else ProxyFailLine (addr r) (checked + 1) total)
      :: progress_lines rest (checked + 1) total
  end.

(** The state with more lines printed. *)
Definition add_output (ls : list out_line) (st : mstate) : mstate :=
  {| this := this st; stdout := stdout st ++ ls; files := files st;
     sent := sent st; ticks := ticks st |}.

(** The futures of a batch in the order they complete. *)
Definition completed (g : globals) (env : environment)
    (proxies : list pystr) (self : ProxyChecker) : list future :=
  as_completed (env_sched env) (map fst (futures_of g self env 0 proxies)).

(** The state when the [with] block of [check_all_proxies] is left. *)
Definition after_probing (g : globals) (env : environment)
    (proxies : list pystr) (st : mstate) : mstate :=
  let rs := map snd (settled (completed g env proxies (this st))) in
  {| this := record_results rs (this st);
     stdout := stdout st ++
               [StartLine (MAX_WORKERS g); TestUrlLine (TEST_URL g);
                TimeoutLine (timeout (this st))] ++
               progress_lines rs 0 (total_proxies (this st));
     files := files st;
     sent := sent st ++
             as_completed (env_started env)
               (map (probe_request g (this st)) proxies);
     ticks := S (ticks st) |}.

(** The state after one more reading of the clock. *)
Definition tick (st : mstate) : mstate :=
  {| this := this st; stdout := stdout st; files := files st;
     sent := sent st; ticks := S (ticks st) |}.

(** The address a finished future reports. *)
Definition fut_addr (f : future) : pystr :=
  match fut_result f with
  | Return r => addr r
  | Raise _ => []
  end.

(** In a worker thread the network layer raises instances of
    [Exception] only. *)
Definition network_raises_exceptions (env : environment) (n : nat) : Prop :=
  forall i req e,
    i < n ->
    http_get (env_probe env i) req = GetRaises e ->
    isinstance e Exception = true.

(** The content of the output file: one address per line. *)
Definition lines_of (proxies : list pystr) : pystr :=
  concat (map (fun proxy => proxy ++ newline) proxies).

(** The state with [content] in the file at [path]. *)
Definition with_file (path content : pystr) (st : mstate) : mstate :=
  {| this := this st; stdout := stdout st;
     files := <[path := content]> (files st); sent := sent st;
     ticks := ticks st |}.

(** The state in which an exception leaves the output file: as it was
    when [open] failed; else truncated by [open], with the part of the
    text that was flushed. *)
Definition partial_file (env : environment) (path : pystr)
    (proxies : list pystr) (st : mstate) : mstate :=
  match env_open_w env path with
  | Some _ => st
  | None =>
      with_file path
        (take (env_flushed env) (write_lines env 0 [] proxies).1) st
  end.

(** The exception with which saving [proxies] to [path] ends, if it
    does: that of [open]; else that of the close, which the [with]
    block always makes, if it raises; else that of the first failing
    [write]. *)
Definition io_failure (env : environment) (path : pystr)
    (proxies : list pystr) : option pyexc :=
  match env_open_w env path with
  | Some e => Some e
  | None =>
      match (write_lines env 0 [] proxies).2, env_close env with
      | _, Some e' => Some e'
      | Some e, None => Some e
      | None, None => None
      end
  end.

(** The state [load_proxies] leaves when the file gave [lines]. *)
Definition loaded_state (lines : list pystr) (st : mstate) : mstate :=
  add_output [LoadedLine (length (stripped_lines lines))
                (proxy_file (this st))]
    (set_this (set_total_proxies (length (stripped_lines lines)) (this st))
       st).

(** The state after the summary of a batch whose total is not zero. *)
Definition summarized (g : globals) (env : environment)
    (proxies : list pystr) (st : mstate) : mstate :=
  let st2 := tick (after_probing g env proxies st) in
  let w := length (working_proxies (this st2)) in
  let f := length (failed_proxies (this st2)) in
  let t := total_proxies (this st2) in
  add_output
    [RuleLine;
     CompletedLine (PrimFloat.sub (env_clock env (S (ticks st)))
                      (env_clock env (ticks st)));
     WorkingCountLine w t;
     FailedCountLine f t;
     SuccessRateLine
       (PrimFloat.mul (PrimFloat.div (float_of_nat w) (float_of_nat t))
          (float_of_nat 100));
     RuleLine] st2.

(** The state in which [main] starts the checker. *)
Definition initial_state (a : args) (fs0 : gmap pystr pystr) : mstate :=
  {| this := __init__ (input_file a) (Some (output a)) (args_timeout a);
     stdout := []; files := fs0; sent := []; ticks := 0 |}.

(** The globals as [main] assigns them. *)
Definition globals_of (a : args) : globals :=
  {| TEST_URL := url a; MAX_WORKERS := workers a |}.

(** The state when the summary of [main]'s run has been printed. *)
Definition summarized_run (env : environment) (a : args)
    (fs0 : gmap pystr pystr) (lines : list pystr) : mstate :=
  summarized (globals_of a) env (stripped_lines lines)
    (loaded_state lines
       (add_output [RuleLine; TitleLine; RuleLine] (initial_state a fs0))).

(** The lines of the summary block. *)
Definition summary_line (l : out_line) : bool :=
  match l with
  | CompletedLine _ | WorkingCountLine _ _ | FailedCountLine _ _
  | SuccessRateLine _ => true
  | _ => false
  end.

(** The pairs shown by the [Proxies funcionando: w/total] lines. *)
Definition working_counts (out : list out_line) : list (nat * nat) :=
  omap (fun l => match l with
                 | WorkingCountLine w t => Some (w, t)
                 | _ => None
                 end) out.

End Trace.
Export Trace.

(* ===================================================================== *)
(** ** A small run *)
(* ===================================================================== *)

(** Two candidates and a blank line; the first probe gets a 200, the
    second a proxy error, and the second finishes first. *)
Module Demo.

Definition lines : list pystr :=
  [lit "  1.2.3.4:8080 " ++ newline; newline; lit "badhost:9999" ++ newline].

Definition probe (i : nat) : probe_env :=
  {| clock_start := float_of_nat 10;
     clock_end := float_of_nat 12;
     http_get := fun _ =>
       match i with
       | O => Response 200
       | S _ => GetRaises proxy_error
       end |}.

Definition env : environment :=
  {| env_read := fun _ => ReadLines lines;
     env_open_w := fun _ => None;
     env_write := fun _ => None;
     env_close := None;
     env_flushed := 0;
     env_clock := fun n => float_of_nat n;
     env_probe := probe;
     env_sched := [1];
     env_started := [] |}.

Definition demo_args : args := default_args (lit "proxies.txt").

Definition proxies : list pystr := [lit "1.2.3.4:8080"; lit "badhost:9999"].

(** The checker as [load_proxies] leaves it. *)
Definition loaded : mstate :=
  {| this := set_total_proxies 2
               (__init__ (lit "proxies.txt") None TIMEOUT);
     stdout := []; files := ∅; sent := []; ticks := 0 |}.

(** An input file with blank lines only. *)
Definition blank_lines : list pystr := [newline; lit "   " ++ newline].

Definition blank_env : environment :=
  {| env_read := fun _ => ReadLines blank_lines;
     env_open_w := fun _ => None;
     env_write := fun _ => None;
     env_close := None;
     env_flushed := 0;
     env_clock := fun n => float_of_nat n;
     env_probe := probe;
     env_sched := [];
     env_started := [] |}.

(** No input file. *)
Definition missing_env : environment :=
  {| env_read := fun _ => ReadRaises file_not_found_error;
     env_open_w := fun _ => None;
     env_write := fun _ => None;
     env_close := None;
     env_flushed := 0;
     env_clock := fun n => float_of_nat n;
     env_probe := probe;
     env_sched := [];
     env_started := [] |}.

(** A disk that refuses the output file. *)
Definition readonly_env : environment :=
  {| env_read := fun _ => ReadLines lines;
     env_open_w := fun _ => Some os_error;
     env_write := fun _ => None;
     env_close := None;
     env_flushed := 0;
     env_clock := fun n => float_of_nat n;
     env_probe := probe;
     env_sched := [1];
     env_started := [] |}.

(** The checker with one working address collected. *)
Definition collected : mstate :=
  {| this := append_working (lit "1.2.3.4:8080")
               (set_total_proxies 2
                  (__init__ (lit "proxies.txt") None TIMEOUT));
     stdout := []; files := ∅; sent := []; ticks := 2 |}.

(** A pool of one worker that has taken the first of two submitted
    items: submit 0, take, submit 1. *)
Definition busy_pool : ThreadPool.config :=
  ([],
   ThreadPool.submit 1
     (ThreadPool.take 0 0 []
        (ThreadPool.submit 0
           {| ThreadPool.max_workers := 1; ThreadPool.work_queue := [];
              ThreadPool.threads := []; ThreadPool.idle_semaphore := 0;
              ThreadPool.finished := [] |}))).

End Demo.

(* ===================================================================== *)
(** ** More readings of a run *)
(* ===================================================================== *)

Module Stages.

(** How [main] ends for what [run] did: the exit status and the final
    state.  An interrupt is answered with a notice and status 0,
    [sys.exit(code)] with [code], any other exception with status 1. *)
Definition exit_of (o : outcome unit) (st : mstate) : Z * mstate :=
  match o with
  | Return _ => (0%Z, st)
  | Raise e =>
      if isinstance e KeyboardInterrupt then
        (0%Z, add_output [InterruptedLine] st)
      else
        match e with
        | SysExit code => (code, st)
        | PyExc _ => (1%Z, st)
        end
  end.

(** The state in which [main]'s run starts probing the candidates of
    [lines]. *)
Definition loaded_run (a : args) (fs0 : gmap pystr pystr)
    (lines : list pystr) : mstate :=
  loaded_state lines
    (add_output [RuleLine; TitleLine; RuleLine] (initial_state a fs0)).

(** The counter and the total a progress line shows. *)
Definition progress_counter (l : out_line) : option (nat * nat) :=
  match l with
  | ProxyOkLine _ _ checked total => Some (checked, total)
  | ProxyFailLine _ checked total => Some (checked, total)
  | _ => None
  end.

(** The path [main] saves to: the [-o] argument, or the default when
    the argument is the empty string. *)
Definition output_path (a : args) : pystr :=
  if truthy (output a) then output a else lit "working_proxies.txt".

(** A candidate as [load_proxies] returns them: not empty, no
    whitespace at either end. *)
Definition trimmed (p : pystr) : Prop :=
  p <> [] /\ strip p = p.

(** No probe of the first [n] gets a 200: each gets another status code
    or a fault of class [Exception]. *)
Definition no_probe_succeeds (env : environment) (n : nat) : Prop :=
  forall i req,
    i < n ->
    (exists code, http_get (env_probe env i) req = Response code /\
                  code <> 200%Z) \/
    (exists e, http_get (env_probe env i) req = GetRaises e /\
               isinstance e Exception = true).

End Stages.
Export Stages.

(** The pool, once more. *)
Module PoolStages.

Import ThreadPool.

(** Work that waits, or a worker counted idle, means that a thread
    exists; and the pool was built with a positive count. *)
Definition staffed (p : pool) : Prop :=
  (0 < max_workers p)%Z /\
  (work_queue p <> [] \/ idle_semaphore p <> 0 -> threads p <> []).

End PoolStages.
Export PoolStages.

(** More concrete runs. *)
Module Demo2.

(** Both probes fail: a 404 and a connect timeout. *)
Definition failing_probe (i : nat) : probe_env :=
  {| clock_start := float_of_nat 10;
     clock_end := float_of_nat 12;
     http_get := fun _ =>
       match i with
       | O => Response 404
       | S _ => GetRaises connect_timeout
       end |}.

Definition failing_env : environment :=
  {| env_read := fun _ => ReadLines Demo.lines;
     env_open_w := fun _ => None;
     env_write := fun _ => None;
     env_close := None;
     env_flushed := 0;
     env_clock := fun n => float_of_nat n;
     env_probe := failing_probe;
     env_sched := [];
     env_started := [] |}.

(** The user interrupts while the input file is read. *)
Definition interrupted_env : environment :=
  {| env_read := fun _ => ReadRaises keyboard_interrupt;
     env_open_w := fun _ => None;
     env_write := fun _ => None;
     env_close := None;
     env_flushed := 0;
     env_clock := fun n => float_of_nat n;
     env_probe := Demo.probe;
     env_sched := [];
     env_started := [] |}.

(** [-w 0] on the command line. *)
Definition zero_workers : args :=
  {| input_file := lit "proxies.txt";
     output := lit "working_proxies.txt";
     args_timeout := TIMEOUT;
     workers := 0;
     url := lit "http://www.google.com" |}.

(** A pool of one worker that has run both items of a batch. *)
Definition done_pool : ThreadPool.config :=
  ([],
   ThreadPool.finish 0 1
     (ThreadPool.take 0 1 []
        (ThreadPool.finish 0 0 (snd Demo.busy_pool)))).

(** An input file of one line with spaces around and inside the text. *)
Definition spaced_env : environment :=
  {| env_read := fun _ => ReadLines [lit "  " ++ lit "a b" ++ newline];
     env_open_w := fun _ => None;
     env_write := fun _ => None;
     env_close := None;
     env_flushed := 0;
     env_clock := fun n => float_of_nat n;
     env_probe := Demo.probe;
     env_sched := [];
     env_started := [] |}.

(** A disk that fills up: the close fails after four characters have
    been flushed; and the worker of the second candidate gets to its
    request first. *)
Definition full_disk_env : environment :=
  {| env_read := fun _ => ReadLines Demo.lines;
     env_open_w := fun _ => None;
     env_write := fun _ => None;
     env_close := Some os_error;
     env_flushed := 4;
     env_clock := fun n => float_of_nat n;
     env_probe := Demo.probe;
     env_sched := [1];
     env_started := [1] |}.

End Demo2.
(* ===================================================================== *)
(** ** Facts about Python strings *)
(* ===================================================================== *)

Section PyStrFacts.

(** *** Facts about [strip] *)

Lemma lstrip_split (s : pystr) :
  exists a, s = a ++ lstrip s /\ blank a = true.
Proof.
  induction s as [|c s IH]; simpl.
  - exists []. split; reflexivity.
  - destruct (isspace c) eqn:Hc.
    + destruct IH as [a [Heq Ha]]. exists (c :: a). simpl.
      rewrite Hc, Ha. split; [f_equal; exact Heq | reflexivity].
    + exists []. split; reflexivity.
Qed.

Lemma lstrip_head (s : pystr) c r :
  lstrip s = c :: r -> isspace c = false.
Proof.
  induction s as [|d s IH]; simpl; [discriminate|].
  destruct (isspace d) eqn:Hd; [exact IH|].
  intros H. injection H as -> _. exact Hd.
Qed.

Lemma lstrip_fixed (s : pystr) c r :
  s = c :: r -> isspace c = false -> lstrip s = s.
Proof. intros -> H. simpl. rewrite H. reflexivity. Qed.

Lemma lstrip_idem (s : pystr) : lstrip (lstrip s) = lstrip s.
Proof.
  destruct (lstrip s) as [|c r] eqn:E; [reflexivity|].
  apply lstrip_head in E as Hc. simpl. rewrite Hc. reflexivity.
Qed.

Lemma lstrip_nil_blank (s : pystr) : lstrip s = [] <-> blank s = true.
Proof.
  induction s as [|c s IH]; simpl; [tauto|].
  destruct (isspace c); simpl; [exact IH|].
  split; discriminate.
Qed.

Lemma blank_rev (s : pystr) : blank (rev s) = blank s.
Proof.
  unfold blank. induction s as [|c s IH]; [reflexivity|].
  simpl. rewrite forallb_app, IH. simpl.
  rewrite andb_true_r. apply andb_comm.
Qed.

Lemma blank_app (a b : pystr) : blank (a ++ b) = blank a && blank b.
Proof. apply forallb_app. Qed.

Lemma rstrip_split (s : pystr) :
  exists b, s = rstrip s ++ b /\ blank b = true.
Proof.
  unfold rstrip. destruct (lstrip_split (rev s)) as [a [Heq Ha]].
  exists (rev a). split.
  - rewrite <- rev_app_distr, <- Heq, rev_involutive. reflexivity.
  - rewrite blank_rev. exact Ha.
Qed.

Lemma rstrip_nil_blank (s : pystr) : rstrip s = [] <-> blank s = true.
Proof.
  unfold rstrip. rewrite <- (blank_rev s), <- lstrip_nil_blank.
  split; intros H.
  - apply (f_equal (@rev N)) in H. rewrite rev_involutive in H. exact H.
  - rewrite H. reflexivity.
Qed.

(** Stripping on the right keeps a non-blank first character in place. *)
Lemma rstrip_keeps_head (c : N) (r : pystr) :
  isspace c = false -> exists r', rstrip (c :: r) = c :: r'.
Proof.
  intros Hc. destruct (rstrip_split (c :: r)) as [b [Heq Hb]].
  destruct (rstrip (c :: r)) as [|d r'] eqn:E.
  - simpl in Heq. subst b. simpl in Hb. rewrite Hc in Hb. discriminate.
  - simpl in Heq. injection Heq as -> _. exists r'. reflexivity.
Qed.

Lemma rstrip_idem (s : pystr) : rstrip (rstrip s) = rstrip s.
Proof.
  unfold rstrip. rewrite rev_involutive, lstrip_idem. reflexivity.
Qed.

Lemma strip_nil_blank (s : pystr) : strip s = [] <-> blank s = true.
Proof.
  unfold strip. rewrite rstrip_nil_blank.
  destruct (lstrip_split s) as [a [Heq Ha]].
  rewrite Heq at 2. rewrite blank_app, Ha. simpl. tauto.
Qed.

(** The stripped string sits inside the original between two blank
    margins. *)
Lemma strip_split (s : pystr) :
  exists a b, s = a ++ strip s ++ b /\ blank a = true /\ blank b = true.
Proof.
  destruct (lstrip_split s) as [a [Heq Ha]].
  destruct (rstrip_split (lstrip s)) as [b [Heq' Hb]].
  exists a, b. unfold strip. rewrite <- Heq'. auto.
Qed.

(** No whitespace is left at the front of a stripped string. *)
Lemma strip_head (s : pystr) c r : strip s = c :: r -> isspace c = false.
Proof.
  unfold strip. intros H.
  destruct (lstrip s) as [|d t] eqn:E.
  - unfold rstrip in H. simpl in H. discriminate.
  - apply lstrip_head in E as Hd.
    destruct (rstrip_keeps_head d t Hd) as [r' Hr'].
    rewrite Hr' in H. injection H as <- _. exact Hd.
Qed.

(** No whitespace is left at the end of a stripped string. *)
Lemma strip_last (s : pystr) c r : strip s = r ++ [c] -> isspace c = false.
Proof.
  unfold strip, rstrip. intros H.
  apply (f_equal (@rev N)) in H.
  rewrite rev_involutive, rev_app_distr in H. simpl in H.
  exact (lstrip_head _ _ _ H).
Qed.

Lemma strip_idem (s : pystr) : strip (strip s) = strip s.
Proof.
  destruct (strip s) as [|c r] eqn:E; [reflexivity|].
  apply strip_head in E as Hc.
  unfold strip at 1. rewrite (lstrip_fixed (c :: r) c r eq_refl Hc).
  rewrite <- E. unfold strip. apply rstrip_idem.
Qed.

(** *** Facts about [contains] *)

Lemma startswith_spec (p s : pystr) :
  startswith p s = true <-> exists b, s = p ++ b.
Proof.
  revert s. induction p as [|c p IH]; intros s; simpl.
  - split; [intros _; exists s; reflexivity | reflexivity].
  - destruct s as [|d s].
    + split; [discriminate | intros [b Hb]; discriminate].
    + rewrite andb_true_iff, N.eqb_eq, IH. split.
      * intros [-> [b ->]]. exists b. reflexivity.
      * intros [b Hb]. injection Hb as -> ->. split; [reflexivity | eauto].
Qed.

(** [needle in hay] holds exactly when [needle] occurs somewhere in
    [hay]. *)
Lemma contains_spec (needle hay : pystr) :
  contains needle hay = true <-> exists a b, hay = a ++ needle ++ b.
Proof.
  induction hay as [|d hay IH]; simpl.
  - rewrite orb_false_r, startswith_spec. split.
    + intros [b Hb]. exists [], b. exact Hb.
    + intros [a [b Hab]]. destruct a; simpl in Hab.
      * exists b. exact Hab.
      * discriminate.
  - rewrite orb_true_iff, startswith_spec, IH. split.
    + intros [[b Hb] | [a [b Hab]]].
      * exists [], b. exact Hb.
      * exists (d :: a), b. simpl. rewrite Hab. reflexivity.
    + intros [a [b Hab]]. destruct a as [|d' a]; simpl in Hab.
      * left. exists b. exact Hab.
      * right. injection Hab as -> ->. exists a, b. reflexivity.
Qed.

End PyStrFacts.
(* ===================================================================== *)
(** ** Facts about the checker's building blocks *)
(* ===================================================================== *)

Section CheckerFacts.

#[local] Arguments lit : simpl never.
#[local] Arguments strip : simpl never.
#[local] Arguments stripped_lines : simpl never.
#[local] Arguments probe_request : simpl never.
#[local] Arguments isinstance : simpl never.
#[local] Arguments check_proxy : simpl never.

(** *** Lists *)

Lemma lookup_map {A B} (f : A -> B) (l : list A) (k : nat) :
  map f l !! k = f <$> l !! k.
Proof. exact (list_lookup_fmap f l k). Qed.

Lemma elem_of_map {A B} (f : A -> B) (l : list A) (x : B) :
  x ∈ map f l <-> exists y, x = f y /\ y ∈ l.
Proof. exact (list_elem_of_fmap f l x). Qed.

(** *** Completion order *)

Lemma drain_Permutation {A} (fuel : nat) (sched : list nat)
    (pending : list A) :
  length pending = fuel -> drain fuel sched pending ≡ₚ pending.
Proof.
  revert sched pending.
  induction fuel as [|fuel IH]; intros sched pending Hlen; simpl.
  - destruct pending; [reflexivity | discriminate].
  - assert (Hk : hd 0 sched `mod` length pending < length pending)
      by (apply Nat.mod_upper_bound; lia).
    destruct (lookup_lt_is_Some_2 _ _ Hk) as [x Hx].
    rewrite Hx.
    etransitivity; [|symmetry; exact (delete_Permutation pending _ x Hx)].
    constructor. apply IH.
    rewrite length_delete by eauto. lia.
Qed.

(** Every future handed to [as_completed] comes out of it once. *)
Lemma as_completed_Permutation {A} (sched : list nat) (fs : list A) :
  as_completed sched fs ≡ₚ fs.
Proof. apply drain_Permutation. reflexivity. Qed.

(** *** Probe results *)

(** The result of a probe carries the address it was given. *)
Lemma check_proxy_addr g self w proxy r :
  (check_proxy g self w proxy).1 = Return r -> addr r = proxy.
Proof.
  unfold check_proxy. simpl.
  destruct (http_get w _) as [code|e].
  - destruct (code =? 200)%Z; intros [= <-]; reflexivity.
  - repeat (destruct (isinstance e _); [intros [= <-]; reflexivity|]).
    discriminate.
Qed.

(** It makes one request. *)
Lemma check_proxy_requests g self w proxy :
  (check_proxy g self w proxy).2 = [probe_request g self proxy].
Proof. reflexivity. Qed.

Lemma check_proxy_fault g self w proxy e :
  http_get w (probe_request g self proxy) = GetRaises e ->
  (check_proxy g self w proxy).1 =
    if handled e then Return (proxy, false, PyInt 0) else Raise e.
Proof.
  intros H. unfold check_proxy, handled. simpl. rewrite H.
  repeat (destruct (isinstance e _); [reflexivity|]). reflexivity.
Qed.

Lemma check_proxy_response g self w proxy code :
  http_get w (probe_request g self proxy) = Response code ->
  (check_proxy g self w proxy).1 =
    Return (proxy, (code =? 200)%Z,
            PyFloat (PrimFloat.sub (clock_end w) (clock_start w))).
Proof.
  intros H. unfold check_proxy. simpl. rewrite H.
  destruct (code =? 200)%Z; reflexivity.
Qed.

(** *** Submission *)

Lemma submit_all_spec g env next proxies st :
  submit_all g env next proxies st =
    (Return (futures_of g (this st) env next proxies), st).
Proof.
  revert next st. induction proxies as [|proxy rest IH]; intros next st.
  - reflexivity.
  - cbn [submit_all futures_of]. unfold bind at 1. unfold submit at 1.
    unfold bind at 1. unfold get_self at 1.
    destruct (check_proxy g (this st) (env_probe env next) proxy)
      as [res reqs].
    unfold ret at 1. unfold bind at 1. rewrite IH. reflexivity.
Qed.

(** The requests of a batch are those of its addresses, one each. *)
Lemma futures_of_requests g self env next proxies :
  concat (map fut_requests (map fst (futures_of g self env next proxies)))
  = map (probe_request g self) proxies.
Proof.
  revert next. induction proxies as [|p r IH]; intros next; cbn;
    [reflexivity | f_equal; apply IH].
Qed.

(** The keys of the dictionary are the futures numbered from [next] on,
    one per address: no two of them are the same object. *)
Lemma futures_of_ids g self env next proxies :
  map (fun fp => fut_id fp.1) (futures_of g self env next proxies)
  = seq next (length proxies).
Proof.
  revert next. induction proxies as [|p r IH]; intros next; simpl;
    [reflexivity | f_equal; apply IH].
Qed.

(** What the future of a submitted address holds. *)
Lemma futures_of_elem g self env next proxies f p :
  (f, p) ∈ futures_of g self env next proxies ->
  next <= fut_id f /\
  proxies !! (fut_id f - next) = Some p /\
  fut_result f = (check_proxy g self (env_probe env (fut_id f)) p).1.
Proof.
  revert next. induction proxies as [|q r IH]; intros next; simpl.
  - intros H. inversion H.
  - intros H. apply elem_of_cons in H as [H|H].
    + injection H as -> ->. simpl. rewrite Nat.sub_diag. auto.
    + apply IH in H as (Hle & Hl & Hr). split; [lia|]. split; [|exact Hr].
      replace (fut_id f - next) with (S (fut_id f - S next)) by lia.
      exact Hl.
Qed.

(** *** The loop over the completed futures *)

Lemma record_results_nil c : record_results [] c = c.
Proof.
  destruct c. unfold record_results. simpl.
  rewrite !app_nil_r. reflexivity.
Qed.

Lemma record_results_working r rs c :
  is_working r = true ->
  record_results rs (append_working (addr r) c) = record_results (r :: rs) c.
Proof.
  intros H. unfold record_results, append_working, failed_probe. simpl.
  rewrite H. simpl. rewrite <- app_assoc. reflexivity.
Qed.

Lemma record_results_failed r rs c :
  is_working r = false ->
  record_results rs (append_failed (addr r) c) = record_results (r :: rs) c.
Proof.
  intros H. unfold record_results, append_failed, failed_probe. simpl.
  rewrite H. simpl. rewrite <- app_assoc. reflexivity.
Qed.

Lemma consume_all_spec fs checked st :
  consume_all fs checked st =
    (match first_raise fs with
     | None => Return (checked + length fs)
     | Some e => Raise e
     end,
     {| this := record_results (map snd (settled fs)) (this st);
        stdout := stdout st ++
                  progress_lines (map snd (settled fs)) checked
                    (total_proxies (this st));
        files := files st; sent := sent st; ticks := ticks st |}).
Proof.
  revert checked st. induction fs as [|f rest IH]; intros checked st.
  - simpl. unfold ret. rewrite record_results_nil, app_nil_r, Nat.add_0_r.
    destruct st; reflexivity.
  - simpl. unfold bind at 1. unfold consume, result, lift, bind at 1.
    destruct (fut_result f) as [[[proxy b] t]|e] eqn:Hf.
    + destruct b; unfold bind, modify_self, get_self, print, ret; simpl;
        rewrite IH; simpl.
      * rewrite (record_results_working (proxy, true, t)) by reflexivity.
        rewrite <- app_assoc. simpl.
        replace (checked + 1 + length rest) with (checked + S (length rest))
          by lia.
        reflexivity.
      * rewrite (record_results_failed (proxy, false, t)) by reflexivity.
        rewrite <- app_assoc. simpl.
        replace (checked + 1 + length rest) with (checked + S (length rest))
          by lia.
        reflexivity.
    + simpl. rewrite record_results_nil, app_nil_r. destruct st; reflexivity.
Qed.

(** When no [result()] raises, every future is consumed. *)
Lemma settled_all fs :
  Forall (fun f => exists r, fut_result f = Return r) fs ->
  first_raise fs = None /\
  map fst (settled fs) = map fut_id fs /\
  Forall2 (fun f ir => fut_result f = Return ir.2) fs (settled fs).
Proof.
  induction 1 as [|f rest [r Hr] _ IH]; simpl.
  - repeat split. constructor.
  - rewrite Hr. destruct IH as (H1 & H2 & H3).
    repeat split; [exact H1 | simpl; f_equal; exact H2 |].
    constructor; [exact Hr | exact H3].
Qed.

(** Every result lands in one of the two lists. *)
Lemma working_failed_Permutation (rs : list result_t) :
  map addr (List.filter is_working rs) ++
  map addr (List.filter failed_probe rs) ≡ₚ map addr rs.
Proof.
  induction rs as [|r rs IH]; simpl; [reflexivity|].
  unfold failed_probe at 1. destruct (is_working r); simpl.
  - constructor. exact IH.
  - rewrite <- Permutation_middle. constructor. exact IH.
Qed.

Lemma working_failed_length (rs : list result_t) :
  length (List.filter is_working rs) + length (List.filter failed_probe rs)
  = length rs.
Proof.
  induction rs as [|r rs IH]; simpl; [reflexivity|].
  unfold failed_probe at 1. destruct (is_working r); simpl; lia.
Qed.

(** *** The summary *)

Lemma print_summary_spec elapsed st :
  print_summary elapsed st =
    let w := length (working_proxies (this st)) in
    let f := length (failed_proxies (this st)) in
    let t := total_proxies (this st) in
    match py_truediv w t with
    | Return q =>
        (Return tt,
         add_output [RuleLine; CompletedLine elapsed; WorkingCountLine w t;
                     FailedCountLine f t;
                     SuccessRateLine (PrimFloat.mul q (float_of_nat 100));
                     RuleLine] st)
    | Raise e =>
        (Raise e,
         add_output [RuleLine; CompletedLine elapsed; WorkingCountLine w t;
                     FailedCountLine f t] st)
    end.
Proof.
  unfold print_summary, bind, print, get_self, lift, add_output. simpl.
  destruct (py_truediv _ _); simpl; rewrite <- ?app_assoc; reflexivity.
Qed.

(** *** check_all_proxies, step by step *)

(** A worker count that is not positive: the pool is refused, nothing is
    probed. *)
Lemma check_all_proxies_no_pool g env proxies st :
  (MAX_WORKERS g <= 0)%Z ->
  check_all_proxies g env proxies st =
    (Raise value_error,
     tick (add_output [StartLine (MAX_WORKERS g); TestUrlLine (TEST_URL g);
                       TimeoutLine (timeout (this st))] st)).
Proof.
  intros H. unfold check_all_proxies, bind, print, get_self, time_time, lift.
  simpl. unfold ThreadPool.ThreadPoolExecutor.
  destruct (Z.leb_spec (MAX_WORKERS g) 0) as [_|Hlt]; [|lia].
  unfold tick, add_output. simpl. rewrite <- !app_assoc. reflexivity.
Qed.

Lemma check_all_proxies_spec g env proxies st :
  (0 < MAX_WORKERS g)%Z ->
  check_all_proxies g env proxies st =
    match first_raise (completed g env proxies (this st)) with
    | Some e => (Raise e, after_probing g env proxies st)
    | None =>
        print_summary
          (PrimFloat.sub (env_clock env (S (ticks st)))
             (env_clock env (ticks st)))
          (tick (after_probing g env proxies st))
    end.
Proof.
  intros H. unfold check_all_proxies.
  unfold bind at 1. unfold print at 1.
  unfold bind at 1. unfold print at 1.
  unfold bind at 1. unfold get_self at 1.
  unfold bind at 1. unfold print at 1.
  unfold bind at 1. unfold time_time at 1.
  unfold bind at 1. unfold lift at 1. simpl.
  unfold ThreadPool.ThreadPoolExecutor.
  destruct (Z.leb_spec (MAX_WORKERS g) 0) as [Hle|_]; [lia|].
  unfold bind at 1. rewrite submit_all_spec. simpl.
  unfold bind at 1. unfold finally at 1. rewrite consume_all_spec.
  unfold executor_exit at 1. rewrite futures_of_requests. simpl.
  fold (completed g env proxies (this st)).
  destruct (first_raise (completed g env proxies (this st))).
  - unfold after_probing. simpl. rewrite <- !app_assoc. reflexivity.
  - unfold bind at 1. unfold time_time at 1. simpl.
    unfold after_probing, tick. simpl. rewrite <- !app_assoc. reflexivity.
Qed.

(** *** When every probe returns *)

Lemma handled_Exception e : isinstance e Exception = true -> handled e = true.
Proof. unfold handled. intros ->. rewrite !orb_true_r. reflexivity. Qed.

Lemma futures_of_return g self env next proxies :
  (forall i req e, next <= i < next + length proxies ->
     http_get (env_probe env i) req = GetRaises e ->
     isinstance e Exception = true) ->
  Forall (fun f => exists r, fut_result f = Return r)
    (map fst (futures_of g self env next proxies)).
Proof.
  revert next. induction proxies as [|p rest IH]; intros next Hnet; cbn.
  - constructor.
  - constructor.
    + cbn.
      destruct (http_get (env_probe env next) (probe_request g self p))
        as [code|e] eqn:Hget.
      * rewrite (check_proxy_response _ _ _ _ _ Hget). eauto.
      * rewrite (check_proxy_fault _ _ _ _ _ Hget).
        rewrite handled_Exception; [eauto|].
        apply (Hnet next (probe_request g self p) e); [cbn; lia | exact Hget].
    + apply IH. intros i req e Hi. apply Hnet. cbn. lia.
Qed.

Lemma futures_of_addrs g self env next proxies :
  Forall (fun f => exists r, fut_result f = Return r)
    (map fst (futures_of g self env next proxies)) ->
  map fut_addr (map fst (futures_of g self env next proxies)) = proxies.
Proof.
  revert next. induction proxies as [|p rest IH]; intros next; cbn.
  - reflexivity.
  - intros H. apply Forall_cons in H as [[r Hr] Hrest]. cbn in Hr.
    f_equal; [|apply IH; exact Hrest].
    unfold fut_addr. cbn. rewrite Hr.
    exact (check_proxy_addr _ _ _ _ _ Hr).
Qed.

Lemma settled_addrs fs :
  Forall (fun f => exists r, fut_result f = Return r) fs ->
  map addr (map snd (settled fs)) = map fut_addr fs.
Proof.
  induction 1 as [|f rest [r Hr] _ IH]; simpl; [reflexivity|].
  rewrite Hr. simpl. unfold fut_addr at 1. rewrite Hr. f_equal. exact IH.
Qed.

(** *** load_proxies *)

Lemma load_proxies_lines env st lines :
  env_read env (proxy_file (this st)) = ReadLines lines ->
  load_proxies env st =
    (Return (stripped_lines lines),
     add_output [LoadedLine (length (stripped_lines lines))
                   (proxy_file (this st))]
       (set_this (set_total_proxies (length (stripped_lines lines))
                    (this st)) st)).
Proof.
  intros H. unfold load_proxies, bind, get_self. simpl. rewrite H.
  reflexivity.
Qed.

Lemma load_proxies_raises env st e :
  env_read env (proxy_file (this st)) = ReadRaises e ->
  load_proxies env st =
    if isinstance e FileNotFoundError then
      (Raise (SysExit 1), add_output [NotFoundLine (proxy_file (this st))] st)
    else if isinstance e Exception then
      (Raise (SysExit 1), add_output [ReadErrorLine e] st)
    else (Raise e, st).
Proof.
  intros H. unfold load_proxies, bind, get_self. simpl. rewrite H.
  destruct (isinstance e FileNotFoundError); [reflexivity|].
  destruct (isinstance e Exception); reflexivity.
Qed.

Lemma truthy_strip (line : pystr) : truthy (strip line) = negb (blank line).
Proof.
  destruct (strip line) as [|c r] eqn:E; simpl.
  - apply strip_nil_blank in E. rewrite E. reflexivity.
  - destruct (blank line) eqn:B; [|reflexivity].
    apply strip_nil_blank in B. congruence.
Qed.

(** The lines that are not blank, stripped, in the order of the file. *)
Lemma stripped_lines_nonblank (lines : list pystr) :
  stripped_lines lines =
    map strip (List.filter (fun line => negb (blank line)) lines).
Proof.
  unfold stripped_lines. f_equal.
  induction lines as [|l ls IH]; simpl; [reflexivity|].
  rewrite truthy_strip, IH. reflexivity.
Qed.

Lemma stripped_lines_clean (lines : list pystr) :
  Forall (fun p => p <> [] /\ strip p = p) (stripped_lines lines).
Proof.
  unfold stripped_lines. induction lines as [|l ls IH]; simpl.
  - constructor.
  - destruct (truthy (strip l)) eqn:T; [|exact IH].
    simpl. constructor; [|exact IH]. split.
    + intros E. rewrite E in T. discriminate.
    + apply strip_idem.
Qed.

Lemma stripped_lines_blank (lines : list pystr) :
  Forall (fun l => blank l = true) lines -> stripped_lines lines = [].
Proof.
  intros H. rewrite stripped_lines_nonblank.
  induction H as [|l ls Hl _ IH]; simpl; [reflexivity|].
  rewrite Hl. simpl. exact IH.
Qed.

(** *** save_working_proxies *)

(** The text handed to the file is what it had before, then a prefix
    of the lines: all of them when no [write] fails. *)
Lemma write_lines_text env k text proxies :
  exists w, (write_lines env k text proxies).1 = text ++ w /\
            w `prefix_of` lines_of proxies /\
            ((write_lines env k text proxies).2 = None ->
             w = lines_of proxies).
Proof.
  revert k text. induction proxies as [|p rest IH]; intros k text.
  - exists []. cbn. rewrite app_nil_r. repeat split. reflexivity.
  - cbn [write_lines]. unfold f_write.
    destruct (env_write env k) as [e|].
    + exists (p ++ newline). cbn [fst snd].
      split; [reflexivity|]. split; [|discriminate].
      exists (lines_of rest). reflexivity.
    + destruct (IH (S k) (text ++ p ++ newline)) as (w & Hw & Hpre & Hall).
      exists ((p ++ newline) ++ w). rewrite Hw.
      split; [rewrite <- !app_assoc; reflexivity|].
      split; [apply prefix_app; exact Hpre|].
      intros H. rewrite (Hall H). reflexivity.
Qed.

Lemma write_lines_complete env proxies :
  (write_lines env 0 [] proxies).2 = None ->
  (write_lines env 0 [] proxies).1 = lines_of proxies.
Proof.
  destruct (write_lines_text env 0 [] proxies) as (w & Hw & _ & Hall).
  intros H. rewrite Hw. apply Hall. exact H.
Qed.

(** Whatever part of the text is flushed is a prefix of the lines. *)
Lemma write_lines_prefix env proxies n :
  take n (write_lines env 0 [] proxies).1 `prefix_of` lines_of proxies.
Proof.
  destruct (write_lines_text env 0 [] proxies) as (w & Hw & Hpre & _).
  rewrite Hw. cbn [app]. etransitivity; [|exact Hpre].
  exists (drop n w). symmetry. apply take_drop.
Qed.

Lemma save_working_proxies_spec env st :
  save_working_proxies env st =
    let self := this st in
    let path := output_file self in
    match working_proxies self with
    | [] => (Return tt, add_output [NothingToSaveLine] st)
    | _ :: _ =>
        match io_failure env path (working_proxies self) with
        | None =>
            (Return tt,
             add_output [SavedLine path]
               (with_file path
                  (write_lines env 0 [] (working_proxies self)).1 st))
        | Some e =>
            if isinstance e Exception then
              (Return tt,
               add_output [SaveErrorLine e]
                 (partial_file env path (working_proxies self) st))
            else
              (Raise e, partial_file env path (working_proxies self) st)
        end
    end.
Proof.
  unfold save_working_proxies. unfold bind at 1. unfold get_self at 1.
  cbv zeta. destruct (working_proxies (this st)) as [|p ps] eqn:Hwp.
  - reflexivity.
  - rewrite <- Hwp. clear Hwp p ps.
    unfold try_except_Exception, io_failure, partial_file.
    unfold bind at 1. unfold open_w.
    destruct (env_open_w env (output_file (this st))) as [e|].
    + unfold raise. destruct (isinstance e Exception); reflexivity.
    + unfold set_file at 1.
      destruct (write_lines env 0 [] (working_proxies (this st)))
        as [text failed].
      cbn [fst snd]. unfold bind at 1. unfold f_close.
      destruct failed as [e|], (env_close env) as [e'|];
        unfold bind, set_file, raise, with_file, add_output, print;
        cbn [fst snd this stdout files sent ticks];
        rewrite insert_insert_eq;
        try destruct (isinstance _ Exception); reflexivity.
Qed.

(** *** run *)

Lemma run_spec g env st :
  run g env st =
    let st0 := add_output [RuleLine; TitleLine; RuleLine] st in
    match env_read env (proxy_file (this st)) with
    | ReadRaises e =>
        if isinstance e FileNotFoundError then
          (Raise (SysExit 1),
           add_output [NotFoundLine (proxy_file (this st))] st0)
        else if isinstance e Exception then
          (Raise (SysExit 1), add_output [ReadErrorLine e] st0)
        else (Raise e, st0)
    | ReadLines lines =>
        match stripped_lines lines with
        | [] => (Return tt, add_output [NoProxiesLine] (loaded_state lines st0))
        | _ :: _ =>
            match check_all_proxies g env (stripped_lines lines)
                    (loaded_state lines st0) with
            | (Return _, st2) => save_working_proxies env st2
            | (Raise e, st2) => (Raise e, st2)
            end
        end
    end.
Proof.
  unfold run. unfold bind at 1. unfold print at 1.
  unfold bind at 1. unfold print at 1.
  unfold bind at 1. unfold print at 1.
  unfold bind at 1. cbv zeta.
  assert (Hst0 :
    {| this := this st;
       stdout := ((stdout st ++ [RuleLine]) ++ [TitleLine]) ++ [RuleLine];
       files := files st; sent := sent st; ticks := ticks st |}
    = add_output [RuleLine; TitleLine; RuleLine] st).
  { unfold add_output. rewrite <- !app_assoc. reflexivity. }
  cbn [this stdout files sent ticks]. rewrite Hst0.
  set (st0 := add_output [RuleLine; TitleLine; RuleLine] st).
  change (proxy_file (this st)) with (proxy_file (this st0)).
  destruct (env_read env (proxy_file (this st0))) as [lines|e] eqn:Hread.
  - rewrite (load_proxies_lines _ _ _ Hread).
    fold (loaded_state lines st0).
    destruct (stripped_lines lines) as [|p ps] eqn:Hp.
    + reflexivity.
    + unfold bind. reflexivity.
  - rewrite (load_proxies_raises _ _ _ Hread).
    destruct (isinstance e FileNotFoundError); [reflexivity|].
    destruct (isinstance e Exception); reflexivity.
Qed.

Lemma run_nonempty g env st lines :
  env_read env (proxy_file (this st)) = ReadLines lines ->
  stripped_lines lines <> [] ->
  let proxies := stripped_lines lines in
  let st1 := loaded_state lines
               (add_output [RuleLine; TitleLine; RuleLine] st) in
  run g env st =
    if (MAX_WORKERS g <=? 0)%Z then
      (Raise value_error,
       tick (add_output [StartLine (MAX_WORKERS g); TestUrlLine (TEST_URL g);
                         TimeoutLine (timeout (this st1))] st1))
    else
      match first_raise (completed g env proxies (this st1)) with
      | Some e => (Raise e, after_probing g env proxies st1)
      | None => save_working_proxies env (summarized g env proxies st1)
      end.
Proof.
  intros Hread Hne. cbv zeta. rewrite run_spec. cbv zeta. rewrite Hread.
  set (st1 := loaded_state lines _).
  destruct (stripped_lines lines) as [|p ps] eqn:Hp; [contradiction|].
  rewrite <- Hp.
  destruct (Z.leb_spec (MAX_WORKERS g) 0) as [Hle|Hlt].
  - rewrite check_all_proxies_no_pool by exact Hle. reflexivity.
  - rewrite check_all_proxies_spec by exact Hlt.
    destruct (first_raise (completed g env (stripped_lines lines) (this st1)));
      [reflexivity|].
    rewrite print_summary_spec. cbv zeta.
    assert (Ht : total_proxies
                   (this (tick (after_probing g env (stripped_lines lines)
                                  st1)))
                 = S (length ps)).
    { cbn. rewrite Hp. reflexivity. }
    unfold summarized. cbv zeta. rewrite Ht. reflexivity.
Qed.

(** *** Frame facts: what each stage leaves alone *)

Lemma working_counts_app (a b : list out_line) :
  working_counts (a ++ b) = working_counts a ++ working_counts b.
Proof. apply omap_app. Qed.

Lemma elem_of_working_counts (out : list out_line) (w t : nat) :
  WorkingCountLine w t ∈ out <-> (w, t) ∈ working_counts out.
Proof.
  unfold working_counts. rewrite list_elem_of_omap. split.
  - intros H. exists (WorkingCountLine w t). auto.
  - intros [l [Hin Hl]]. destruct l; try discriminate.
    injection Hl as -> ->. exact Hin.
Qed.

Lemma working_counts_progress rs checked total :
  working_counts (progress_lines rs checked total) = [].
Proof.
  revert checked. induction rs as [|r rs IH]; intros checked; simpl;
    [reflexivity|].
  destruct (is_working r); simpl; apply IH.
Qed.

Lemma after_probing_counts g env proxies st :
  working_counts (stdout (after_probing g env proxies st))
  = working_counts (stdout st).
Proof.
  unfold after_probing. cbn [stdout].
  rewrite !working_counts_app, working_counts_progress. simpl.
  rewrite app_nil_r. reflexivity.
Qed.

Lemma save_working_proxies_frame env st :
  let st' := (save_working_proxies env st).2 in
  this st' = this st /\
  sent st' = sent st /\
  (exists l, stdout st' = stdout st ++ l /\ working_counts l = []) /\
  (files st' = files st \/
   exists content,
     files st' = <[output_file (this st) := content]> (files st) /\
     content `prefix_of` lines_of (working_proxies (this st)) /\
     (io_failure env (output_file (this st)) (working_proxies (this st))
        = None ->
      content = lines_of (working_proxies (this st)))).
Proof.
  cbv zeta. rewrite save_working_proxies_spec. cbv zeta.
  destruct (working_proxies (this st)) as [|p ps] eqn:Hwp.
  - cbn. split; [reflexivity|]. split; [reflexivity|].
    split; [eexists; split; reflexivity | left; reflexivity].
  - rewrite <- Hwp.
    assert (Hpart : forall st0 : mstate,
      files st0 = files st ->
      files (partial_file env (output_file (this st))
               (working_proxies (this st)) st0) = files st \/
      exists content,
        files (partial_file env (output_file (this st))
                 (working_proxies (this st)) st0) =
          <[output_file (this st) := content]> (files st) /\
        content `prefix_of` lines_of (working_proxies (this st))).
    { intros st0 H0. unfold partial_file.
      destruct (env_open_w env _); [left; exact H0|].
      right. eexists. cbn. rewrite H0. split; [reflexivity|].
      apply write_lines_prefix. }
    assert (Hthis : forall st0 : mstate,
      this (partial_file env (output_file (this st))
              (working_proxies (this st)) st0) = this st0 /\
      stdout (partial_file env (output_file (this st))
                (working_proxies (this st)) st0) = stdout st0 /\
      sent (partial_file env (output_file (this st))
                (working_proxies (this st)) st0) = sent st0).
    { intros st0. unfold partial_file.
      destruct (env_open_w env _); repeat split. }
    destruct (io_failure env _ _) as [e|] eqn:Hio.
    + destruct (isinstance e Exception); cbn [snd add_output this stdout
        files sent].
      * destruct (Hthis st) as (-> & -> & ->).
        split; [reflexivity|]. split; [reflexivity|].
        split; [eexists; split; reflexivity|].
        destruct (Hpart st eq_refl) as [H|(c & Hc & Hpre)];
          [left; exact H | right; exists c].
        split; [exact Hc|]. split; [exact Hpre | discriminate].
      * destruct (Hthis st) as (-> & -> & ->).
        split; [reflexivity|]. split; [reflexivity|].
        split; [exists []; rewrite app_nil_r; split; reflexivity|].
        destruct (Hpart st eq_refl) as [H|(c & Hc & Hpre)];
          [left; exact H | right; exists c].
        split; [exact Hc|]. split; [exact Hpre | discriminate].
    + cbn. split; [reflexivity|]. split; [reflexivity|].
      split; [eexists; split; reflexivity|].
      right. eexists. split; [reflexivity|].
      assert (Hall : (write_lines env 0 [] (working_proxies (this st))).1
                     = lines_of (working_proxies (this st))).
      { apply write_lines_complete. unfold io_failure in Hio.
        destruct (env_open_w env _); [discriminate|].
        destruct ((write_lines env 0 [] (working_proxies (this st))).2),
          (env_close env); try discriminate. reflexivity. }
      rewrite Hall. split; [reflexivity | reflexivity].
Qed.

(** Every address the loop records is one of the submitted ones. *)
Lemma settled_addr_submitted g self env proxies i r :
  (i, r) ∈ settled (completed g env proxies self) -> addr r ∈ proxies.
Proof.
  intros Hin.
  assert (Hsub : forall fs, (i, r) ∈ settled fs ->
            exists f, f ∈ fs /\ fut_result f = Return r).
  { induction fs as [|f fs IH]; simpl; [intros H; inversion H|].
    destruct (fut_result f) as [r'|e] eqn:Hf; [|intros H; inversion H].
    intros H. apply elem_of_cons in H as [H|H].
    - injection H as -> ->. exists f. split; [left | exact Hf].
    - destruct (IH H) as (f' & Hf' & Hr). exists f'. split; [right|]; auto. }
  destruct (Hsub _ Hin) as (f & Hf & Hr).
  unfold completed in Hf. rewrite as_completed_Permutation in Hf.
  apply elem_of_map in Hf as [[f' p] [-> Hfp]]. cbn in Hr.
  apply futures_of_elem in Hfp as (_ & Hp & Hres). cbn in Hres.
  rewrite Hres in Hr. apply check_proxy_addr in Hr. rewrite Hr.
  apply list_elem_of_lookup. eauto.
Qed.

Lemma record_results_working_elem g self env proxies c p :
  p ∈ working_proxies
        (record_results (map snd (settled (completed g env proxies self))) c)
  -> p ∈ working_proxies c \/ p ∈ proxies.
Proof.
  cbn. rewrite elem_of_app. intros [H|H]; [left; exact H | right].
  apply elem_of_map in H as [r [-> Hr]].
  apply list_elem_of_In, filter_In in Hr as [Hr _].
  apply list_elem_of_In, elem_of_map in Hr as [[i r'] [-> Hir]].
  exact (settled_addr_submitted _ _ _ _ _ _ Hir).
Qed.

(** A fault that is not handled in [check_proxy] comes out of
    [result()]; nothing else does. *)
Lemma first_raise_unhandled g self env proxies e :
  first_raise (completed g env proxies self) = Some e ->
  isinstance e Exception = false.
Proof.
  intros H.
  assert (Hsub : forall fs, first_raise fs = Some e ->
            exists f, f ∈ fs /\ fut_result f = Raise e).
  { induction fs as [|f fs IH]; simpl; [discriminate|].
    destruct (fut_result f) as [r'|e'] eqn:Hf.
    - intros H'. destruct (IH H') as (f' & Hf' & Hr).
      exists f'. split; [right|]; auto.
    - intros [= ->]. exists f. split; [left | exact Hf]. }
  destruct (Hsub _ H) as (f & Hf & Hr).
  unfold completed in Hf. rewrite as_completed_Permutation in Hf.
  apply elem_of_map in Hf as [[f' p] [-> Hfp]]. cbn in Hr.
  apply futures_of_elem in Hfp as (_ & _ & Hres). cbn in Hres.
  rewrite Hres in Hr.
  destruct (http_get (env_probe env (fut_id f')) (probe_request g self p))
    as [code|e'] eqn:Hget.
  - rewrite (check_proxy_response _ _ _ _ _ Hget) in Hr. discriminate.
  - rewrite (check_proxy_fault _ _ _ _ _ Hget) in Hr.
    destruct (handled e') eqn:Hh; [discriminate|].
    injection Hr as ->. unfold handled in Hh.
    apply orb_false_iff in Hh as [_ Hh]. exact Hh.
Qed.

(** *** main *)

Lemma main_state env a fs0 :
  let r := run (globals_of a) env (initial_state a fs0) in
  (main env a fs0).2 = r.2 \/
  (main env a fs0).2 = add_output [InterruptedLine] r.2.
Proof.
  cbv zeta. unfold main. fold (globals_of a). fold (initial_state a fs0).
  destruct (run (globals_of a) env (initial_state a fs0)) as [[u|e] st].
  - left. reflexivity.
  - destruct (isinstance e KeyboardInterrupt).
    + right. reflexivity.
    + left. destruct e; reflexivity.
Qed.

(** A run of [main] either stops before the summary, with the file
    system as it found it, or prints the summary of a non-empty batch
    and goes on to save. *)
Lemma main_cases env a fs0 :
  let st' := (main env a fs0).2 in
  (working_counts (stdout st') = [] /\ files st' = fs0 /\
   forall p, p ∈ working_proxies (this st') ->
     exists lines, env_read env (input_file a) = ReadLines lines /\
                   p ∈ stripped_lines lines)
  \/
  (exists lines, env_read env (input_file a) = ReadLines lines /\
     stripped_lines lines <> [] /\
     let st2 := summarized_run env a fs0 lines in
     this st' = this st2 /\
     (exists l, stdout st' = stdout st2 ++ l /\ working_counts l = []) /\
     (files st' = fs0 \/
      exists content,
        files st' = <[output_file (this st2) := content]> fs0 /\
        content `prefix_of` lines_of (working_proxies (this st2)) /\
        (io_failure env (output_file (this st2)) (working_proxies (this st2))
           = None ->
         content = lines_of (working_proxies (this st2))))).
Proof.
  cbv zeta.
  assert (Hearly : forall st : mstate,
    (main env a fs0).2 = st \/ (main env a fs0).2 = add_output [InterruptedLine] st ->
    working_counts (stdout st) = [] -> files st = fs0 ->
    (forall p, p ∈ working_proxies (this st) ->
       exists lines, env_read env (input_file a) = ReadLines lines /\
                     p ∈ stripped_lines lines) ->
    working_counts (stdout (main env a fs0).2) = [] /\
    files (main env a fs0).2 = fs0 /\
    forall p, p ∈ working_proxies (this (main env a fs0).2) ->
      exists lines, env_read env (input_file a) = ReadLines lines /\
                    p ∈ stripped_lines lines).
  { intros st [-> | ->] Hc Hf Hw; [auto|].
    cbn. rewrite working_counts_app, Hc. auto. }
  pose proof (main_state env a fs0) as Hmain. cbv zeta in Hmain.
  destruct (env_read env (input_file a)) as [lines|e] eqn:Hread.
  - destruct (decide (stripped_lines lines = [])) as [Hp|Hne].
    + left. rewrite run_spec in Hmain. cbv zeta in Hmain.
      cbn [initial_state this __init__ proxy_file] in Hmain.
      rewrite Hread, Hp in Hmain.
      eapply Hearly; [exact Hmain | reflexivity | reflexivity |].
      cbn. intros p Hin. inversion Hin.
    + rewrite (run_nonempty _ _ _ lines) in Hmain by assumption.
      set (st1 := loaded_state lines
                    (add_output [RuleLine; TitleLine; RuleLine]
                       (initial_state a fs0))) in *.
      destruct (Z.leb_spec (MAX_WORKERS (globals_of a)) 0) as [Hle|Hlt].
      * left. eapply Hearly; [exact Hmain | reflexivity | reflexivity |].
        cbn. intros p Hin. inversion Hin.
      * destruct (first_raise _) as [e|] eqn:Hfirst.
        -- left. eapply Hearly; [exact Hmain | | reflexivity |].
           ++ cbn [snd]. rewrite after_probing_counts. reflexivity.
           ++ cbn [snd after_probing this]. intros p Hin.
              apply record_results_working_elem in Hin as [Hin|Hin].
              ** cbn in Hin. inversion Hin.
              ** eauto.
        -- right. exists lines. split; [reflexivity|]. split; [exact Hne|].
           unfold summarized_run. fold st1.
           destruct (save_working_proxies_frame env
                       (summarized (globals_of a) env (stripped_lines lines)
                          st1))
             as (Hthis & _ & (l & Hout & Hl) & Hfiles).
           cbv zeta in Hthis, Hout, Hfiles.
           destruct Hmain as [-> | ->].
           ++ split; [exact Hthis|]. split; [eauto|]. exact Hfiles.
           ++ cbn [add_output this stdout files].
              split; [exact Hthis|]. split; [|exact Hfiles].
              exists (l ++ [InterruptedLine]). rewrite Hout, app_assoc.
              split; [reflexivity|].
              rewrite working_counts_app, Hl. reflexivity.
  - left. rewrite run_spec in Hmain. cbv zeta in Hmain.
    cbn [initial_state this __init__ proxy_file] in Hmain.
    rewrite Hread in Hmain.
    destruct (isinstance e FileNotFoundError);
      [|destruct (isinstance e Exception)];
      (eapply Hearly; [exact Hmain | reflexivity | reflexivity |];
       cbn; intros p Hin; inversion Hin).
Qed.

Lemma save_working_proxies_raise env st e :
  (save_working_proxies env st).1 = Raise e ->
  isinstance e Exception = false.
Proof.
  rewrite save_working_proxies_spec. cbv zeta.
  destruct (working_proxies (this st)); [discriminate|].
  destruct (io_failure env _ _) as [e'|]; [|discriminate].
  destruct (isinstance e' Exception) eqn:He; [discriminate|].
  intros [= <-]. exact He.
Qed.

Lemma summarized_run_this env a fs0 lines :
  this (summarized_run env a fs0 lines) =
    record_results
      (map snd (settled (completed (globals_of a) env (stripped_lines lines)
                           (set_total_proxies (length (stripped_lines lines))
                              (__init__ (input_file a) (Some (output a))
                                 (args_timeout a))))))
      (set_total_proxies (length (stripped_lines lines))
         (__init__ (input_file a) (Some (output a)) (args_timeout a))).
Proof. reflexivity. Qed.

Lemma summarized_run_counts env a fs0 lines :
  working_counts (stdout (summarized_run env a fs0 lines)) =
    [(length (working_proxies (this (summarized_run env a fs0 lines))),
      length (stripped_lines lines))].
Proof.
  unfold summarized_run, summarized. cbv zeta.
  cbn [add_output stdout tick]. rewrite working_counts_app.
  rewrite after_probing_counts. reflexivity.
Qed.

(** A loaded candidate has no whitespace at either end. *)
Lemma stripped_lines_trimmed (lines : list pystr) (p : pystr) :
  p ∈ stripped_lines lines ->
  (forall c r, p = c :: r -> isspace c = false) /\
  (forall c r, p = r ++ [c] -> isspace c = false).
Proof.
  intros Hin.
  pose proof (stripped_lines_clean lines) as Hclean.
  rewrite Forall_forall in Hclean.
  destruct (Hclean p Hin) as [_ Hfix].
  split; intros c r Hp; rewrite Hp in Hfix.
  - exact (strip_head _ _ _ Hfix).
  - exact (strip_last _ _ _ Hfix).
Qed.

(** *** Where the guards are *)

(** An interrupt is no [Exception]: [check_proxy] lets it through. *)
Remark check_proxy_lets_interrupt_through g self w proxy :
  http_get w (probe_request g self proxy) = GetRaises keyboard_interrupt ->
  (check_proxy g self w proxy).1 = Raise keyboard_interrupt.
Proof.
  intros H. rewrite (check_proxy_fault g self w proxy _ H). reflexivity.
Qed.

(** The division of the summary is not guarded in [check_all_proxies]
    itself: called on an empty list with a total of zero it raises. *)
Remark check_all_proxies_empty_divides g env st :
  (0 < MAX_WORKERS g)%Z ->
  total_proxies (this st) = 0 ->
  (check_all_proxies g env [] st).1 = Raise zero_division_error.
Proof.
  intros Hpos Ht. rewrite check_all_proxies_spec by exact Hpos.
  cbn [completed futures_of map as_completed length drain first_raise].
  rewrite print_summary_spec. cbv zeta.
  cbn [tick after_probing this record_results total_proxies].
  rewrite Ht. reflexivity.
Qed.

(** In [main], [check_all_proxies] starts from what [load_proxies]
    left: both lists empty and the total equal to the number of
    candidates. *)
Remark loaded_state_fresh a fs0 lines :
  let st := loaded_state lines
              (add_output [RuleLine; TitleLine; RuleLine]
                 (initial_state a fs0)) in
  working_proxies (this st) = [] /\
  failed_proxies (this st) = [] /\
  total_proxies (this st) = length (stripped_lines lines).
Proof. repeat split. Qed.

(** *** A run, end to end *)

(** The small run: exit status 0, one address in each list, the working
    one saved, one request per candidate. *)
Example demo_run :
  let r := main Demo.env Demo.demo_args ∅ in
  r.1 = 0%Z /\
  working_proxies (this r.2) = [lit "1.2.3.4:8080"] /\
  failed_proxies (this r.2) = [lit "badhost:9999"] /\
  total_proxies (this r.2) = 2 /\
  files r.2 !! lit "working_proxies.txt"
    = Some (lit "1.2.3.4:8080" ++ newline) /\
  length (sent r.2) = 2.
Proof. vm_compute. repeat split. Qed.

(** The same input on a disk that refuses the output file: the run
    still ends with status 0 and leaves the file system alone. *)
Example demo_run_readonly :
  let r := main Demo.readonly_env Demo.demo_args ∅ in
  r.1 = 0%Z /\
  working_proxies (this r.2) = [lit "1.2.3.4:8080"] /\
  files r.2 = ∅.
Proof. vm_compute. repeat split. Qed.

(** The same input on a disk that fills up while the file is closed:
    the file is left with the four characters that were flushed, the
    failure is reported and the run ends with status 0.  The requests
    went out in the order the workers got to them. *)
Example demo_run_full_disk :
  let r := main Demo2.full_disk_env Demo.demo_args ∅ in
  r.1 = 0%Z /\
  working_proxies (this r.2) = [lit "1.2.3.4:8080"] /\
  files r.2 !! lit "working_proxies.txt" = Some (lit "1.2.") /\
  last (stdout r.2) = Some (SaveErrorLine os_error) /\
  map (fun req => req_proxies req !! lit "http") (sent r.2)
    = [Some (lit "http://badhost:9999"); Some (lit "http://1.2.3.4:8080")].
Proof. vm_compute. repeat split. Qed.

End CheckerFacts.

(* ===================================================================== *)
(** ** Facts about the worker pool *)
(* ===================================================================== *)

Section PoolFacts.

Import ThreadPool.

Lemma running_le_threads (l : list (option nat)) :
  length (omap id l) <= length l.
Proof.
  induction l as [|[i|] l IH]; cbn in *; lia.
Qed.

Lemma adjust_thread_count_bounded p :
  threads_bounded p -> threads_bounded (adjust_thread_count p).
Proof.
  unfold threads_bounded, adjust_thread_count. intros H.
  destruct (idle_semaphore p); [|exact H].
  destruct (Z.ltb_spec (Z.of_nat (length (threads p))) (max_workers p))
    as [Hlt|Hge]; [|exact H].
  cbn. rewrite length_app. cbn. lia.
Qed.

Lemma adjust_thread_count_max p :
  max_workers (adjust_thread_count p) = max_workers p.
Proof.
  unfold adjust_thread_count. destruct (idle_semaphore p); [|reflexivity].
  destruct (_ <? _)%Z; reflexivity.
Qed.

Lemma step_bounded c c' :
  step c c' ->
  threads_bounded c.2 ->
  threads_bounded c'.2 /\ max_workers c'.2 = max_workers c.2.
Proof.
  intros Hstep Hb. destruct Hstep as [i todo p | t i rest todo p Ht Hq
                                     | t i todo p Ht]; cbn in *.
  - split.
    + apply adjust_thread_count_bounded. exact Hb.
    + unfold submit. rewrite adjust_thread_count_max. reflexivity.
  - split; [|reflexivity]. unfold threads_bounded, take in *. cbn.
    rewrite length_insert. exact Hb.
  - split; [|reflexivity]. unfold threads_bounded, finish in *. cbn.
    rewrite length_insert. exact Hb.
Qed.

Lemma reachable_bounded c0 c :
  reachable c0 c ->
  threads_bounded c0.2 ->
  threads_bounded c.2 /\ max_workers c.2 = max_workers c0.2.
Proof.
  induction 1 as [|c c' _ IH Hstep]; intros Hb.
  - split; [exact Hb | reflexivity].
  - destruct (IH Hb) as [Hc Hm].
    destruct (step_bounded c c' Hstep Hc) as [Hc' Hm'].
    split; [exact Hc' | congruence].
Qed.

(** *** No work item is lost or run twice *)

Lemma running_take (l : list (option nat)) (t i : nat) :
  l !! t = Some None ->
  omap id (<[t := Some i]> l) ≡ₚ i :: omap id l.
Proof.
  revert t. induction l as [|x l IH]; intros [|t] H; cbn in *;
    try discriminate.
  - injection H as ->. reflexivity.
  - destruct x as [j|]; cbn.
    + rewrite (IH t H). apply perm_swap.
    + exact (IH t H).
Qed.

Lemma running_finish (l : list (option nat)) (t i : nat) :
  l !! t = Some (Some i) ->
  omap id l ≡ₚ i :: omap id (<[t := None]> l).
Proof.
  revert t. induction l as [|x l IH]; intros [|t] H; cbn in *;
    try discriminate.
  - injection H as ->. reflexivity.
  - destruct x as [j|]; cbn.
    + rewrite (IH t H). apply perm_swap.
    + exact (IH t H).
Qed.

Lemma adjust_thread_count_work p :
  work_queue (adjust_thread_count p) = work_queue p /\
  running (adjust_thread_count p) = running p /\
  finished (adjust_thread_count p) = finished p.
Proof.
  unfold adjust_thread_count, running.
  destruct (idle_semaphore p); [|repeat split].
  destruct (_ <? _)%Z; [|repeat split].
  cbn. rewrite omap_app. cbn. rewrite app_nil_r. repeat split.
Qed.

Lemma step_conserves_work c c' :
  step c c' -> all_work c' ≡ₚ all_work c.
Proof.
  intros Hstep. destruct Hstep as [i todo p | t i rest todo p Ht Hq
                                  | t i todo p Ht]; unfold all_work; cbn.
  - unfold submit.
    destruct (adjust_thread_count_work
                {| max_workers := max_workers p;
                   work_queue := work_queue p ++ [i];
                   threads := threads p;
                   idle_semaphore := idle_semaphore p;
                   finished := finished p |}) as (-> & -> & ->).
    unfold running. cbn. rewrite <- (app_assoc (work_queue p)). cbn.
    rewrite !(app_assoc todo). symmetry. apply Permutation_middle.
  - unfold running. cbn. rewrite Hq. rewrite (running_take _ _ _ Ht).
    apply Permutation_app_head. cbn. symmetry. apply Permutation_middle.
  - unfold running. cbn. rewrite (running_finish _ _ _ Ht).
    apply Permutation_app_head. apply Permutation_app_head.
    rewrite app_assoc.
    etransitivity; [apply Permutation_app_comm | reflexivity].
Qed.

Lemma reachable_conserves_work c0 c :
  reachable c0 c -> all_work c ≡ₚ all_work c0.
Proof.
  induction 1 as [|c c' _ IH Hstep]; [reflexivity|].
  rewrite (step_conserves_work _ _ Hstep). exact IH.
Qed.

(** When a batch is through, the order in which its futures finished is
    an arrangement of the futures submitted: what [as_completed] then
    yields, each future once. *)
Lemma finished_batch_Permutation n p0 (ids : list nat) c :
  ThreadPoolExecutor n = Return p0 ->
  reachable (ids, p0) c ->
  c.1 = [] -> work_queue c.2 = [] -> running c.2 = [] ->
  finished c.2 ≡ₚ ids.
Proof.
  intros Hnew Hreach Htodo Hq Hrun.
  pose proof (reachable_conserves_work _ _ Hreach) as Hperm.
  unfold all_work in Hperm. rewrite Htodo, Hq, Hrun in Hperm. cbn in Hperm.
  unfold ThreadPoolExecutor in Hnew.
  destruct (n <=? 0)%Z; [discriminate|]. injection Hnew as <-.
  cbn in Hperm. rewrite app_nil_r in Hperm. exact Hperm.
Qed.

End PoolFacts.

(* ===================================================================== *)
(** ** The properties of the program *)
(* ===================================================================== *)

Section Claims.

#[local] Arguments lit : simpl never.
#[local] Arguments strip : simpl never.
#[local] Arguments stripped_lines : simpl never.
#[local] Arguments probe_request : simpl never.
#[local] Arguments isinstance : simpl never.
#[local] Arguments check_proxy : simpl never.

(** C1.  [check_all_proxies], started on the list [load_proxies]
    returned (both result lists empty, [total_proxies] the length of the
    list), with a pool that can be built and a network layer that raises
    instances of [Exception]: the loop consumes one result per submitted
    address (the numbers of the futures consumed are those of the
    submitted ones, each once), every result is the one [check_proxy]
    gave for that address, it is appended to [working_proxies] when it
    reports success and to [failed_proxies] otherwise, the two lists
    together hold the submitted addresses, and their lengths add up to
    [total_proxies].  On a non-empty list the method returns. *)
Theorem check_all_proxies_one_result_each g env proxies st :
  (0 < MAX_WORKERS g)%Z ->
  network_raises_exceptions env (length proxies) ->
  working_proxies (this st) = [] ->
  failed_proxies (this st) = [] ->
  total_proxies (this st) = length proxies ->
  let st' := (check_all_proxies g env proxies st).2 in
  exists results : list (nat * result_t),
    map fst results ≡ₚ seq 0 (length proxies) /\
    (forall i r, (i, r) ∈ results ->
       exists proxy, proxies !! i = Some proxy /\
         (check_proxy g (this st) (env_probe env i) proxy).1 = Return r) /\
    working_proxies (this st') =
      map addr (List.filter is_working (map snd results)) /\
    failed_proxies (this st') =
      map addr (List.filter failed_probe (map snd results)) /\
    working_proxies (this st') ++ failed_proxies (this st') ≡ₚ proxies /\
    length (working_proxies (this st')) + length (failed_proxies (this st'))
      = total_proxies (this st') /\
    (proxies <> [] -> (check_all_proxies g env proxies st).1 = Return tt).
Proof.
  intros Hw Hnet Hwork Hfail Htotal st'.
  set (fs := completed g env proxies (this st)).
  assert (Hperm : fs ≡ₚ map fst (futures_of g (this st) env 0 proxies))
    by apply as_completed_Permutation.
  assert (Hall0 : Forall (fun f => exists r, fut_result f = Return r)
                    (map fst (futures_of g (this st) env 0 proxies))).
  { apply futures_of_return. intros i req e Hi. apply Hnet. lia. }
  assert (Hall : Forall (fun f => exists r, fut_result f = Return r) fs).
  { rewrite Hperm. exact Hall0. }
  destruct (settled_all fs Hall) as (Hnone & Hids & Hres).
  assert (Hthis : this st' =
                  record_results (map snd (settled fs)) (this st)).
  { unfold st'. rewrite check_all_proxies_spec by exact Hw.
    fold fs. rewrite Hnone, print_summary_spec. simpl.
    destruct (py_truediv _ _); reflexivity. }
  assert (Hret : proxies <> [] ->
                 (check_all_proxies g env proxies st).1 = Return tt).
  { intros Hne. rewrite check_all_proxies_spec by exact Hw.
    fold fs. rewrite Hnone, print_summary_spec. simpl.
    rewrite Htotal. destruct proxies; [contradiction|]. reflexivity. }
  clearbody fs st'.
  assert (Haddrs : map addr (map snd (settled fs)) ≡ₚ proxies).
  { rewrite settled_addrs by exact Hall.
    rewrite Hperm. rewrite futures_of_addrs by exact Hall0. reflexivity. }
  exists (settled fs). rewrite Hthis. cbn. rewrite Hwork, Hfail. cbn.
  repeat split.
  - rewrite Hids, Hperm, map_map. rewrite futures_of_ids. reflexivity.
  - intros i r Hin.
    apply list_elem_of_lookup in Hin as [k Hk].
    destruct (Forall2_lookup_r _ _ _ _ _ Hres Hk) as (f & Hf & Hfr).
    simpl in Hfr.
    assert (Hid : fut_id f = i).
    { apply (f_equal (fun l => l !! k)) in Hids.
      cbv beta in Hids. rewrite !lookup_map, Hk, Hf in Hids. simpl in Hids.
      injection Hids as ->. reflexivity. }
    assert (Hfin : f ∈ map fst (futures_of g (this st) env 0 proxies)).
    { rewrite <- Hperm. apply list_elem_of_lookup. eauto. }
    apply elem_of_map in Hfin as [[f' p] [-> Hfp]]. cbn in *.
    apply futures_of_elem in Hfp as (_ & Hp & Hr). cbn in *.
    rewrite Nat.sub_0_r, Hid in Hp. rewrite Hid in Hr.
    exists p. split; [exact Hp | rewrite <- Hr; exact Hfr].
  - rewrite working_failed_Permutation. exact Haddrs.
  - rewrite !length_map, working_failed_length.
    rewrite Htotal. rewrite <- (Permutation_length Haddrs), !length_map.
    reflexivity.
  - exact Hret.
Qed.

Lemma check_all_proxies_one_result_each_witness :
  (0 < MAX_WORKERS initial_globals)%Z /\
  network_raises_exceptions Demo.env (length Demo.proxies) /\
  total_proxies (this Demo.loaded) = length Demo.proxies /\
  let st' := (check_all_proxies initial_globals Demo.env Demo.proxies
                Demo.loaded).2 in
  exists results : list (nat * result_t),
    map fst results ≡ₚ seq 0 (length Demo.proxies) /\
    (forall i r, (i, r) ∈ results ->
       exists proxy, Demo.proxies !! i = Some proxy /\
         (check_proxy initial_globals (this Demo.loaded)
            (env_probe Demo.env i) proxy).1 = Return r) /\
    working_proxies (this st') =
      map addr (List.filter is_working (map snd results)) /\
    failed_proxies (this st') =
      map addr (List.filter failed_probe (map snd results)) /\
    working_proxies (this st') ++ failed_proxies (this st') ≡ₚ Demo.proxies /\
    length (working_proxies (this st')) + length (failed_proxies (this st'))
      = total_proxies (this st') /\
    (Demo.proxies <> [] ->
     (check_all_proxies initial_globals Demo.env Demo.proxies
        Demo.loaded).1 = Return tt).
Proof.
  assert (Hnet : network_raises_exceptions Demo.env (length Demo.proxies)).
  { intros [|i] req e _ H; cbn in H; [discriminate|].
    injection H as <-. reflexivity. }
  split; [reflexivity|]. split; [exact Hnet|]. split; [reflexivity|].
  apply (check_all_proxies_one_result_each initial_globals Demo.env
           Demo.proxies Demo.loaded);
    [reflexivity | exact Hnet | reflexivity | reflexivity | reflexivity].
Defined.

(** C2.  When the GET of a probe comes back with a response,
    [check_proxy] returns the address with the flag [True] exactly when
    the status code is 200 and [False] for every other code, and in both
    cases the third component is the measured duration, the difference
    of the clock readings after and before the request (not the literal
    [0] of the fault paths). *)
Theorem check_proxy_classifies_by_status g self w proxy code :
  http_get w (probe_request g self proxy) = Response code ->
  exists is_ok : bool,
    (check_proxy g self w proxy).1 =
      Return (proxy, is_ok,
              PyFloat (PrimFloat.sub (clock_end w) (clock_start w))) /\
    (is_ok = true <-> code = 200%Z).
Proof.
  intros H. exists (code =? 200)%Z. split.
  - exact (check_proxy_response g self w proxy code H).
  - apply Z.eqb_eq.
Qed.

Lemma check_proxy_classifies_by_status_witness :
  http_get (Demo.probe 0)
    (probe_request initial_globals (this Demo.loaded) (lit "1.2.3.4:8080"))
    = Response 200 /\
  exists is_ok : bool,
    (check_proxy initial_globals (this Demo.loaded) (Demo.probe 0)
       (lit "1.2.3.4:8080")).1 =
      Return (lit "1.2.3.4:8080", is_ok,
              PyFloat (PrimFloat.sub (clock_end (Demo.probe 0))
                         (clock_start (Demo.probe 0)))) /\
    (is_ok = true <-> 200%Z = 200%Z).
Proof.
  split; [reflexivity|].
  apply (check_proxy_classifies_by_status initial_globals
           (this Demo.loaded) (Demo.probe 0) (lit "1.2.3.4:8080") 200).
  reflexivity.
Defined.

(** C3.  When the GET of a probe raises a proxy error, a connect
    timeout, a read timeout, a connection error or any other instance of
    [Exception], [check_proxy] raises nothing: it returns the address
    with the flag [False] and the elapsed time [0]. *)
Theorem check_proxy_absorbs_faults g self w proxy e :
  http_get w (probe_request g self proxy) = GetRaises e ->
  isinstance e ProxyError = true \/ isinstance e ConnectTimeout = true \/
  isinstance e ReadTimeout = true \/ isinstance e ConnectionError = true \/
  isinstance e Exception = true ->
  (check_proxy g self w proxy).1 = Return (proxy, false, PyInt 0).
Proof.
  intros Hget Hcls. rewrite (check_proxy_fault g self w proxy e Hget).
  assert (Hh : handled e = true).
  { unfold handled.
    destruct Hcls as [H|[H|[H|[H|H]]]]; rewrite H;
      rewrite ?orb_true_r; reflexivity. }
  rewrite Hh. reflexivity.
Qed.

Lemma check_proxy_absorbs_faults_witness :
  http_get (Demo.probe 1)
    (probe_request initial_globals (this Demo.loaded) (lit "badhost:9999"))
    = GetRaises proxy_error /\
  isinstance proxy_error ProxyError = true /\
  (check_proxy initial_globals (this Demo.loaded) (Demo.probe 1)
     (lit "badhost:9999")).1 = Return (lit "badhost:9999", false, PyInt 0).
Proof.
  split; [reflexivity|]. split; [reflexivity|].
  apply (check_proxy_absorbs_faults initial_globals (this Demo.loaded)
           (Demo.probe 1) (lit "badhost:9999") proxy_error).
  - reflexivity.
  - left. reflexivity.
Defined.

(** C8.  [check_proxy] puts [http://] in front of the address when the
    address has no [://] in it and takes the address as it is otherwise;
    it makes one GET request, to the test URL, whose [proxies] dictionary
    maps both [http] and [https] (and nothing else) to that proxy URL,
    with the configured timeout and [allow_redirects=True]. *)
Theorem check_proxy_request g self w proxy :
  let proxy_url := proxy_url_of proxy in
  let req := probe_request g self proxy in
  ((forall a b, proxy <> a ++ lit "://" ++ b) ->
     proxy_url = lit "http://" ++ proxy) /\
  ((exists a b, proxy = a ++ lit "://" ++ b) -> proxy_url = proxy) /\
  (check_proxy g self w proxy).2 = [req] /\
  req_url req = TEST_URL g /\
  req_proxies req !! lit "http" = Some proxy_url /\
  req_proxies req !! lit "https" = Some proxy_url /\
  dom (req_proxies req) = {[lit "http"; lit "https"]} /\
  req_timeout req = timeout self /\
  req_allow_redirects req = true.
Proof.
  assert (Hne : lit "https" <> lit "http") by (vm_compute; discriminate).
  cbv zeta. unfold probe_request, proxy_url_of. cbn [req_url req_proxies
    req_timeout req_allow_redirects].
  split; [|split; [|split; [|split; [|split; [|split; [|split; [|split]]]]]]].
  - intros Hno. destruct (contains (lit "://") proxy) eqn:Hc; [|reflexivity].
    apply contains_spec in Hc as (a & b & Hab). destruct (Hno a b Hab).
  - intros Hsep. apply contains_spec in Hsep. rewrite Hsep. reflexivity.
  - reflexivity.
  - reflexivity.
  - rewrite lookup_insert_ne by exact Hne. apply lookup_insert_eq.
  - apply lookup_insert_eq.
  - rewrite !dom_insert_L, dom_empty_L. set_solver.
  - reflexivity.
  - reflexivity.
Qed.

Lemma check_proxy_request_witness :
  (forall a b, lit "1.2.3.4:8080" <> a ++ lit "://" ++ b) /\
  proxy_url_of (lit "1.2.3.4:8080") = lit "http://" ++ lit "1.2.3.4:8080" /\
  (exists a b, lit "socks5://h:1" = a ++ lit "://" ++ b) /\
  proxy_url_of (lit "socks5://h:1") = lit "socks5://h:1".
Proof.
  assert (H1 : forall a b, lit "1.2.3.4:8080" <> a ++ lit "://" ++ b).
  { intros a b Hab.
    assert (Hc : contains (lit "://") (lit "1.2.3.4:8080") = true)
      by (apply contains_spec; eauto).
    vm_compute in Hc. discriminate. }
  assert (H2 : exists a b, lit "socks5://h:1" = a ++ lit "://" ++ b)
    by (exists (lit "socks5"), (lit "h:1"); reflexivity).
  split; [exact H1|]. split.
  - exact (proj1 (check_proxy_request initial_globals (this Demo.loaded)
                    (Demo.probe 0) (lit "1.2.3.4:8080")) H1).
  - split; [exact H2|].
    exact (proj1 (proj2 (check_proxy_request initial_globals
                           (this Demo.loaded) (Demo.probe 0)
                           (lit "socks5://h:1"))) H2).
Defined.

(** C4, as amended.  When the input file can be read and every line of
    it is blank, the run reports 0 loaded proxies, says that no proxies
    were found and stops there with exit status 0: [total_proxies] is 0,
    no summary block is printed, no probe is sent, no file is written,
    and nothing is divided. *)
Theorem empty_input_stops_before_probing env a fs0 lines :
  env_read env (input_file a) = ReadLines lines ->
  Forall (fun line => blank line = true) lines ->
  main env a fs0 =
    (0%Z,
     {| this := set_total_proxies 0
                  (__init__ (input_file a) (Some (output a))
                     (args_timeout a));
        stdout := [RuleLine; TitleLine; RuleLine;
                   LoadedLine 0 (input_file a); NoProxiesLine];
        files := fs0; sent := []; ticks := 0 |}).
Proof.
  intros Hread Hblank. unfold main. rewrite run_spec. cbv zeta.
  cbn [this proxy_file __init__]. rewrite Hread.
  unfold loaded_state. rewrite (stripped_lines_blank lines Hblank).
  reflexivity.
Qed.

Lemma empty_input_stops_before_probing_witness :
  env_read Demo.blank_env (input_file Demo.demo_args)
    = ReadLines Demo.blank_lines /\
  Forall (fun line => blank line = true) Demo.blank_lines /\
  (main Demo.blank_env Demo.demo_args ∅).1 = 0%Z /\
  stdout (main Demo.blank_env Demo.demo_args ∅).2 =
    [RuleLine; TitleLine; RuleLine; LoadedLine 0 (lit "proxies.txt");
     NoProxiesLine].
Proof.
  assert (Hb : Forall (fun line => blank line = true) Demo.blank_lines)
    by (repeat constructor).
  split; [reflexivity|]. split; [exact Hb|].
  rewrite (empty_input_stops_before_probing Demo.blank_env Demo.demo_args ∅
             Demo.blank_lines eq_refl Hb).
  split; reflexivity.
Defined.

(** C4, as the claim has it, fails: on an input file with blank lines
    only the run prints no line of the summary block at all, so there is
    no summary with a total of 0. *)
Lemma empty_input_prints_no_summary :
  env_read Demo.blank_env (input_file Demo.demo_args)
    = ReadLines Demo.blank_lines /\
  Forall (fun line => blank line = true) Demo.blank_lines /\
  ~ (exists l, l ∈ stdout (main Demo.blank_env Demo.demo_args ∅).2 /\
               summary_line l = true).
Proof.
  split; [reflexivity|]. split; [repeat constructor|].
  intros [l [Hin Hs]].
  assert (Hout : stdout (main Demo.blank_env Demo.demo_args ∅).2 =
                 [RuleLine; TitleLine; RuleLine;
                  LoadedLine 0 (lit "proxies.txt"); NoProxiesLine])
    by (vm_compute; reflexivity).
  rewrite Hout in Hin.
  repeat (apply elem_of_cons in Hin as [->|Hin]; [discriminate|]).
  inversion Hin.
Qed.

(** C7.  In a run of the program the success rate is never computed
    with [total_proxies] equal to zero.  Whenever the summary is reached
    (its [Proxies funcionando: w/t] line is in the output), the input
    file was read, [t] is the number of candidates loaded from it and is
    not zero, the division [w / t] gives a value and the rate line is
    printed; and [run] never ends in a [ZeroDivisionError]. *)
Theorem summary_division_guarded env a fs0 :
  let st' := (main env a fs0).2 in
  (forall w t, WorkingCountLine w t ∈ stdout st' ->
     t <> 0 /\
     (exists lines, env_read env (input_file a) = ReadLines lines /\
                    t = length (stripped_lines lines)) /\
     exists q, py_truediv w t = Return q /\
       SuccessRateLine (PrimFloat.mul q (float_of_nat 100)) ∈ stdout st') /\
  (forall g st, (run g env st).1 <> Raise zero_division_error).
Proof.
  cbv zeta. split.
  - intros w t Hin. apply elem_of_working_counts in Hin.
    destruct (main_cases env a fs0) as [(Hc & _ & _) | Hsum].
    + rewrite Hc in Hin. inversion Hin.
    + destruct Hsum as (lines & Hread & Hne & _ & (l & Hout & Hl) & _).
      rewrite Hout, working_counts_app, Hl, app_nil_r in Hin.
      rewrite summarized_run_counts in Hin.
      apply list_elem_of_singleton in Hin. injection Hin as -> ->.
      split; [intros H0; apply Hne; apply length_zero_iff_nil; exact H0|].
      split; [exists lines; auto|].
      destruct (length (stripped_lines lines)) as [|n] eqn:Hlen.
      { destruct Hne. apply length_zero_iff_nil. exact Hlen. }
      eexists. split; [reflexivity|].
      rewrite Hout. apply elem_of_app. left.
      unfold summarized_run, summarized. cbv zeta.
      cbn [add_output stdout]. apply elem_of_app. right.
      cbn [tick after_probing this record_results total_proxies
           set_total_proxies loaded_state add_output set_this].
      rewrite Hlen. repeat constructor.
  - intros g st.
    assert (Hz : isinstance zero_division_error Exception = true)
      by reflexivity.
    intros Hrun.
    destruct (env_read env (proxy_file (this st))) as [lines|e] eqn:Hread.
    + destruct (decide (stripped_lines lines = [])) as [Hp|Hne].
      * rewrite run_spec in Hrun. cbv zeta in Hrun.
        rewrite Hread, Hp in Hrun. discriminate.
      * rewrite (run_nonempty g env st lines Hread Hne) in Hrun.
        destruct (MAX_WORKERS g <=? 0)%Z; [discriminate|].
        destruct (first_raise _) as [e|] eqn:Hfirst.
        -- injection Hrun as ->.
           apply first_raise_unhandled in Hfirst. congruence.
        -- apply save_working_proxies_raise in Hrun. congruence.
    + rewrite run_spec in Hrun. cbv zeta in Hrun. rewrite Hread in Hrun.
      destruct (isinstance e FileNotFoundError); [discriminate|].
      destruct (isinstance e Exception) eqn:He; [discriminate|].
      injection Hrun as ->. congruence.
Qed.

Lemma summary_division_guarded_witness :
  WorkingCountLine 1 2 ∈ stdout (main Demo.env Demo.demo_args ∅).2 /\
  2 <> 0 /\
  exists q, py_truediv 1 2 = Return q /\
    SuccessRateLine (PrimFloat.mul q (float_of_nat 100))
      ∈ stdout (main Demo.env Demo.demo_args ∅).2.
Proof.
  assert (Hin : WorkingCountLine 1 2
                  ∈ stdout (main Demo.env Demo.demo_args ∅).2).
  { vm_compute.
    repeat first [apply list_elem_of_here | apply list_elem_of_further]. }
  split; [exact Hin|].
  destruct (proj1 (summary_division_guarded Demo.env Demo.demo_args ∅)
              1 2 Hin) as (Hne & _ & Hq).
  split; [exact Hne | exact Hq].
Defined.

(** C6.  [load_proxies] returns the lines of the file that are not
    blank, each stripped of the whitespace around it, in the order of
    the file, and sets [total_proxies] to their number; no returned
    candidate is empty or begins or ends with whitespace.  When reading
    raises [FileNotFoundError] or any other instance of [Exception], the
    process prints the banner and one diagnostic line and exits with
    status 1: nothing is probed and no file is written. *)
Theorem load_proxies_contract env a fs0 :
  (forall lines st,
     env_read env (proxy_file (this st)) = ReadLines lines ->
     (load_proxies env st).1 = Return (stripped_lines lines) /\
     total_proxies (this (load_proxies env st).2)
       = length (stripped_lines lines) /\
     stripped_lines lines =
       map strip (List.filter (fun line => negb (blank line)) lines) /\
     forall p, p ∈ stripped_lines lines ->
       p <> [] /\
       (forall c r, p = c :: r -> isspace c = false) /\
       (forall c r, p = r ++ [c] -> isspace c = false)) /\
  (forall e,
     env_read env (input_file a) = ReadRaises e ->
     isinstance e FileNotFoundError = true \/ isinstance e Exception = true ->
     main env a fs0 =
       (1%Z,
        {| this := __init__ (input_file a) (Some (output a))
                     (args_timeout a);
           stdout := [RuleLine; TitleLine; RuleLine;
                      if isinstance e FileNotFoundError
                      then NotFoundLine (input_file a)
                      else ReadErrorLine e];
           files := fs0; sent := []; ticks := 0 |})).
Proof.
  split.
  - intros lines st Hread. rewrite (load_proxies_lines env st lines Hread).
    split; [reflexivity|]. split; [reflexivity|].
    split; [apply stripped_lines_nonblank|].
    intros p Hin. split; [|exact (stripped_lines_trimmed lines p Hin)].
    pose proof (stripped_lines_clean lines) as Hclean.
    rewrite Forall_forall in Hclean.
    exact (proj1 (Hclean p Hin)).
  - intros e Hread Hcls. unfold main. rewrite run_spec. cbv zeta.
    cbn [this proxy_file __init__]. rewrite Hread.
    destruct (isinstance e FileNotFoundError) eqn:Hfnf; [reflexivity|].
    destruct Hcls as [Hc|Hc]; [discriminate|]. rewrite Hc. reflexivity.
Qed.

Lemma load_proxies_contract_witness :
  env_read Demo.env (proxy_file (this Demo.loaded)) = ReadLines Demo.lines /\
  (load_proxies Demo.env Demo.loaded).1 = Return Demo.proxies /\
  env_read Demo.missing_env (input_file Demo.demo_args)
    = ReadRaises file_not_found_error /\
  isinstance file_not_found_error FileNotFoundError = true /\
  (main Demo.missing_env Demo.demo_args ∅).1 = 1%Z /\
  files (main Demo.missing_env Demo.demo_args ∅).2 = ∅.
Proof.
  split; [reflexivity|]. split.
  - exact (proj1 (proj1 (load_proxies_contract Demo.env Demo.demo_args ∅)
                    Demo.lines Demo.loaded eq_refl)).
  - split; [reflexivity|]. split; [reflexivity|].
    rewrite (proj2 (load_proxies_contract Demo.missing_env Demo.demo_args ∅)
               file_not_found_error eq_refl (or_introl eq_refl)).
    split; reflexivity.
Defined.

(** C5.  [save_working_proxies] with an empty working list leaves the
    file system alone and says that there is nothing to save.  With a
    non-empty list and an output file that takes the writes, the file
    holds the working addresses, one per line, in list order, and
    nothing else, and the save is reported.  An exception of class
    [Exception] from [open], a [write] or the close is reported on the
    output and the method returns; it never raises an instance of
    [Exception].  The file system changes only when the list is not
    empty.  The list itself is filled by [check_all_proxies] with the
    addresses of the results that report success, the failed ones going
    to the other list. *)
Theorem save_working_proxies_contract env st :
  let self := this st in
  let path := output_file self in
  let r := save_working_proxies env st in
  (working_proxies self = [] ->
     r = (Return tt, add_output [NothingToSaveLine] st)) /\
  (working_proxies self <> [] ->
   io_failure env path (working_proxies self) = None ->
     r = (Return tt,
          add_output [SavedLine path]
            (with_file path (lines_of (working_proxies self)) st))) /\
  (forall e,
     working_proxies self <> [] ->
     io_failure env path (working_proxies self) = Some e ->
     isinstance e Exception = true ->
     r.1 = Return tt /\ this r.2 = self /\
     stdout r.2 = stdout st ++ [SaveErrorLine e]) /\
  (forall e, r.1 = Raise e -> isinstance e Exception = false) /\
  (files r.2 <> files st -> working_proxies self <> []) /\
  (forall g proxies st0,
     (0 < MAX_WORKERS g)%Z ->
     let rs := map snd (settled (completed g env proxies (this st0))) in
     let st1 := (check_all_proxies g env proxies st0).2 in
     working_proxies (this st1) =
       working_proxies (this st0) ++ map addr (List.filter is_working rs) /\
     failed_proxies (this st1) =
       failed_proxies (this st0) ++ map addr (List.filter failed_probe rs)).
Proof.
  cbv zeta.
  split; [|split; [|split; [|split; [|split]]]].
  - intros Hw. rewrite save_working_proxies_spec. cbv zeta. rewrite Hw.
    reflexivity.
  - intros Hw Hio. rewrite save_working_proxies_spec. cbv zeta.
    destruct (working_proxies (this st)) as [|p ps] eqn:Hwp;
      [contradiction|].
    rewrite <- Hwp in *. rewrite Hio.
    rewrite write_lines_complete; [reflexivity|].
    unfold io_failure in Hio.
    destruct (env_open_w env _); [discriminate|].
    destruct ((write_lines env 0 [] (working_proxies (this st))).2),
      (env_close env); try discriminate. reflexivity.
  - intros e Hw Hio He. rewrite save_working_proxies_spec. cbv zeta.
    destruct (working_proxies (this st)) as [|p ps] eqn:Hwp;
      [contradiction|].
    rewrite <- Hwp in *. rewrite Hio, He. cbn.
    unfold partial_file. destruct (env_open_w env _); repeat split.
  - intros e. apply save_working_proxies_raise.
  - intros Hfiles Hw. apply Hfiles.
    rewrite save_working_proxies_spec. cbv zeta. rewrite Hw. reflexivity.
  - intros g proxies st0 Hpos.
    rewrite check_all_proxies_spec by exact Hpos.
    destruct (first_raise _).
    + split; reflexivity.
    + rewrite print_summary_spec. cbv zeta.
      destruct (py_truediv _ _); split; reflexivity.
Qed.

Lemma save_working_proxies_contract_witness :
  working_proxies (this Demo.collected) <> [] /\
  io_failure Demo.env (output_file (this Demo.collected))
    (working_proxies (this Demo.collected)) = None /\
  files (save_working_proxies Demo.env Demo.collected).2
    !! lit "working_proxies.txt" = Some (lit "1.2.3.4:8080" ++ newline) /\
  io_failure Demo.readonly_env (output_file (this Demo.collected))
    (working_proxies (this Demo.collected)) = Some os_error /\
  isinstance os_error Exception = true /\
  (save_working_proxies Demo.readonly_env Demo.collected).1 = Return tt /\
  stdout (save_working_proxies Demo.readonly_env Demo.collected).2
    = [SaveErrorLine os_error].
Proof.
  assert (Hne : working_proxies (this Demo.collected) <> [])
    by discriminate.
  split; [exact Hne|]. split; [reflexivity|]. split.
  - rewrite (proj1 (proj2 (save_working_proxies_contract Demo.env
                             Demo.collected)) Hne eq_refl).
    reflexivity.
  - split; [reflexivity|]. split; [reflexivity|].
    destruct (proj1 (proj2 (proj2 (save_working_proxies_contract
                                     Demo.readonly_env Demo.collected)))
                os_error Hne eq_refl eq_refl) as (Hret & _ & Hout).
    split; [exact Hret | exact Hout].
Defined.

(** C10.  The first component of what [check_proxy] returns is the
    string it was given; the [http://] prefix goes into the proxy URL of
    the request only, which for an address without [://] differs from
    the address.  Hence in a run every address in [working_proxies] is
    one of the stripped lines loaded from the input file.  The output
    file is either untouched or holds a prefix of the text made of these
    addresses, one per line, in their order in [working_proxies]: all of
    it when neither [open], a [write] nor the close fails, and the part
    that was flushed otherwise, which may end inside an address. *)
Theorem check_proxy_keeps_address env a fs0 :
  (forall g self w proxy r,
     (check_proxy g self w proxy).1 = Return r -> addr r = proxy) /\
  (forall proxy,
     contains (lit "://") proxy = false ->
     proxy_url_of proxy = lit "http://" ++ proxy /\
     proxy_url_of proxy <> proxy) /\
  let st' := (main env a fs0).2 in
  (forall p, p ∈ working_proxies (this st') ->
     exists lines, env_read env (input_file a) = ReadLines lines /\
                   p ∈ stripped_lines lines) /\
  (files st' = fs0 \/
   exists content,
     files st' = <[output_file (this st') := content]> fs0 /\
     content `prefix_of` lines_of (working_proxies (this st')) /\
     (io_failure env (output_file (this st')) (working_proxies (this st'))
        = None ->
      content = lines_of (working_proxies (this st')))).
Proof.
  split; [exact check_proxy_addr|]. split.
  - intros proxy Hc. unfold proxy_url_of. rewrite Hc. cbn [negb].
    split; [reflexivity|].
    intros H. apply (f_equal length) in H. rewrite length_app in H.
    assert (Hl : length (lit "http://") = 7) by reflexivity.
    rewrite Hl in H. lia.
  - cbv zeta. destruct (main_cases env a fs0) as [(_ & Hf & Hw) | Hsum].
    + split; [exact Hw | left; exact Hf].
    + destruct Hsum as (lines & Hread & _ & Hthis & _ & Hfiles).
      cbv zeta in Hthis, Hfiles. rewrite Hthis. split; [|exact Hfiles].
      intros p Hin. rewrite summarized_run_this in Hin.
      apply record_results_working_elem in Hin as [Hin|Hin].
      * cbn in Hin. inversion Hin.
      * exists lines. auto.
Qed.

Lemma check_proxy_keeps_address_witness :
  (check_proxy initial_globals (this Demo.loaded) (Demo.probe 0)
     (lit "1.2.3.4:8080")).1
    = Return (lit "1.2.3.4:8080", true, PyFloat (float_of_nat 2)) /\
  addr (lit "1.2.3.4:8080", true, PyFloat (float_of_nat 2))
    = lit "1.2.3.4:8080" /\
  contains (lit "://") (lit "1.2.3.4:8080") = false /\
  proxy_url_of (lit "1.2.3.4:8080") <> lit "1.2.3.4:8080" /\
  io_failure Demo.env
    (output_file (this (main Demo.env Demo.demo_args ∅).2))
    (working_proxies (this (main Demo.env Demo.demo_args ∅).2)) = None /\
  files (main Demo.env Demo.demo_args ∅).2 !! lit "working_proxies.txt"
    = Some (lit "1.2.3.4:8080" ++ newline).
Proof.
  assert (H : (check_proxy initial_globals (this Demo.loaded) (Demo.probe 0)
                 (lit "1.2.3.4:8080")).1
              = Return (lit "1.2.3.4:8080", true, PyFloat (float_of_nat 2)))
    by (vm_compute; reflexivity).
  assert (Hio : io_failure Demo.env
                  (output_file (this (main Demo.env Demo.demo_args ∅).2))
                  (working_proxies (this (main Demo.env Demo.demo_args ∅).2))
                = None) by (vm_compute; reflexivity).
  split; [exact H|]. split.
  - exact (proj1 (check_proxy_keeps_address Demo.env Demo.demo_args ∅)
             _ _ _ _ _ H).
  - split; [reflexivity|]. split.
    + exact (proj2 (proj1 (proj2 (check_proxy_keeps_address Demo.env
                                    Demo.demo_args ∅))
                      (lit "1.2.3.4:8080") eq_refl)).
    + split; [exact Hio|].
      pose proof (proj2 (proj2 (check_proxy_keeps_address Demo.env
                                  Demo.demo_args ∅))) as Hrun.
      cbv zeta in Hrun.
      destruct Hrun as [_ [Hf | (content & Hf & _ & Hall)]].
      * vm_compute. reflexivity.
      * rewrite Hf, (Hall Hio). vm_compute. reflexivity.
Defined.

(** C9.  On the pool the dispatcher builds with a worker count [n], in
    every state an interleaving of the submissions and of the workers'
    steps can reach, the number of probes some worker is running is at
    most [n]; the pool keeps the count it was built with, and the count
    is 50 unless the command line says otherwise. *)
Theorem pool_bounds_probes_in_flight n p0 todo c :
  ThreadPool.ThreadPoolExecutor n = Return p0 ->
  ThreadPool.reachable (todo, p0) c ->
  (Z.of_nat (ThreadPool.in_flight c.2) <= n)%Z /\
  ThreadPool.max_workers c.2 = n /\
  MAX_WORKERS initial_globals = 50%Z /\
  (forall f, workers (default_args f) = 50%Z).
Proof.
  intros Hnew Hreach.
  unfold ThreadPool.ThreadPoolExecutor in Hnew.
  destruct (Z.leb_spec n 0) as [Hle|Hpos]; [discriminate|].
  injection Hnew as <-.
  destruct (reachable_bounded _ _ Hreach) as [Hb Hm].
  { unfold ThreadPool.threads_bounded. cbn. lia. }
  cbn in Hm. unfold ThreadPool.threads_bounded in Hb.
  split; [|split; [exact Hm | split; reflexivity]].
  unfold ThreadPool.in_flight, ThreadPool.running.
  pose proof (running_le_threads (ThreadPool.threads c.2)). lia.
Qed.

Lemma pool_bounds_probes_in_flight_witness :
  ThreadPool.ThreadPoolExecutor 1 =
    Return {| ThreadPool.max_workers := 1; ThreadPool.work_queue := [];
              ThreadPool.threads := []; ThreadPool.idle_semaphore := 0;
              ThreadPool.finished := [] |} /\
  ThreadPool.reachable
    ([0; 1],
     {| ThreadPool.max_workers := 1; ThreadPool.work_queue := [];
        ThreadPool.threads := []; ThreadPool.idle_semaphore := 0;
        ThreadPool.finished := [] |}) Demo.busy_pool /\
  ThreadPool.in_flight Demo.busy_pool.2 = 1 /\
  ThreadPool.work_queue Demo.busy_pool.2 = [1] /\
  (Z.of_nat (ThreadPool.in_flight Demo.busy_pool.2) <= 1)%Z.
Proof.
  assert (Hreach : ThreadPool.reachable
    ([0; 1],
     {| ThreadPool.max_workers := 1; ThreadPool.work_queue := [];
        ThreadPool.threads := []; ThreadPool.idle_semaphore := 0;
        ThreadPool.finished := [] |}) Demo.busy_pool).
  { unfold Demo.busy_pool.
    eapply ThreadPool.reach_step;
      [eapply ThreadPool.reach_step;
        [eapply ThreadPool.reach_step; [apply ThreadPool.reach_start|] |] |].
    - apply ThreadPool.step_submit.
    - apply (ThreadPool.step_take 0 0 [] [1]); reflexivity.
    - apply ThreadPool.step_submit. }
  split; [reflexivity|]. split; [exact Hreach|].
  split; [reflexivity|]. split; [reflexivity|].
  exact (proj1 (pool_bounds_probes_in_flight 1 _ [0; 1] Demo.busy_pool
                  eq_refl Hreach)).
Defined.

End Claims.

(* ===================================================================== *)
(** ** Facts about whole runs *)
(* ===================================================================== *)

Section StageFacts.

#[local] Arguments lit : simpl never.
#[local] Arguments strip : simpl never.
#[local] Arguments stripped_lines : simpl never.
#[local] Arguments probe_request : simpl never.
#[local] Arguments isinstance : simpl never.
#[local] Arguments check_proxy : simpl never.

(** *** Strings *)

Lemma lstrip_blank_app (a s : pystr) :
  blank a = true -> lstrip (a ++ s) = lstrip s.
Proof.
  induction a as [|c a IH]; simpl; [reflexivity|].
  destruct (isspace c); simpl; [exact IH | discriminate].
Qed.

Lemma rstrip_blank_app (s b : pystr) :
  blank b = true -> rstrip (s ++ b) = rstrip s.
Proof.
  intros Hb. unfold rstrip. rewrite rev_app_distr.
  rewrite lstrip_blank_app; [reflexivity|].
  rewrite blank_rev. exact Hb.
Qed.

Lemma rstrip_fixed (s : pystr) c r :
  s = r ++ [c] -> isspace c = false -> rstrip s = s.
Proof.
  intros -> Hc. unfold rstrip. rewrite rev_app_distr. simpl.
  rewrite Hc. simpl. rewrite rev_involutive. reflexivity.
Qed.

(** A string between two blank margins that itself begins and ends
    with something else is what [strip] returns. *)
Lemma strip_margins (a m b : pystr) :
  blank a = true -> blank b = true ->
  (forall c r, m = c :: r -> isspace c = false) ->
  (forall c r, m = r ++ [c] -> isspace c = false) ->
  strip (a ++ m ++ b) = m.
Proof.
  intros Ha Hb Hhead Hlast. unfold strip.
  rewrite lstrip_blank_app by exact Ha.
  destruct m as [|c r].
  - simpl. apply rstrip_nil_blank.
    destruct (lstrip_split b) as [x [Hx Hbx]].
    apply lstrip_nil_blank in Hb. rewrite Hb. reflexivity.
  - rewrite (lstrip_fixed ((c :: r) ++ b) c (r ++ b) eq_refl
               (Hhead c r eq_refl)).
    rewrite rstrip_blank_app by exact Hb.
    destruct (exists_last (l := c :: r)) as (r' & c' & Hr'); [discriminate|].
    exact (rstrip_fixed _ c' r' Hr' (Hlast c' r' Hr')).
Qed.

Lemma trimmed_ends (p : pystr) :
  trimmed p ->
  (forall c r, p = c :: r -> isspace c = false) /\
  (forall c r, p = r ++ [c] -> isspace c = false).
Proof.
  intros [_ Hfix]. split; intros c r Hp; rewrite Hp in Hfix.
  - exact (strip_head _ _ _ Hfix).
  - exact (strip_last _ _ _ Hfix).
Qed.

Lemma strip_line (p : pystr) : trimmed p -> strip (p ++ newline) = p.
Proof.
  intros Hp. destruct (trimmed_ends p Hp) as [Hh Hl].
  change (p ++ newline) with ([] ++ p ++ newline).
  apply strip_margins; [reflexivity | reflexivity | exact Hh | exact Hl].
Qed.

Lemma stripped_lines_trimmed_all (lines : list pystr) (p : pystr) :
  p ∈ stripped_lines lines -> trimmed p.
Proof.
  intros Hin. pose proof (stripped_lines_clean lines) as Hclean.
  rewrite Forall_forall in Hclean. exact (Hclean p Hin).
Qed.

(** *** The stages of a run *)

Lemma main_exit env a fs0 :
  main env a fs0 =
    exit_of (run (globals_of a) env (initial_state a fs0)).1
            (run (globals_of a) env (initial_state a fs0)).2.
Proof.
  unfold main. fold (globals_of a). fold (initial_state a fs0).
  destruct (run (globals_of a) env (initial_state a fs0)) as [[u|e] st];
    cbn [fst snd exit_of]; [reflexivity|].
  destruct (isinstance e KeyboardInterrupt); [reflexivity|].
  destruct e; reflexivity.
Qed.

Lemma exit_of_state o st :
  (exit_of o st).2 = st \/ (exit_of o st).2 = add_output [InterruptedLine] st.
Proof.
  destruct o as [u|e]; cbn; [left; reflexivity|].
  destruct (isinstance e KeyboardInterrupt); [right; reflexivity|].
  left. destruct e; reflexivity.
Qed.

Lemma exit_of_frame o st :
  this (exit_of o st).2 = this st /\
  files (exit_of o st).2 = files st /\
  sent (exit_of o st).2 = sent st.
Proof.
  destruct (exit_of_state o st) as [-> | ->]; repeat split.
Qed.

(** The four ways a run goes on once the input file has been read. *)
Lemma run_readable_cases g env st lines :
  env_read env (proxy_file (this st)) = ReadLines lines ->
  let ps := stripped_lines lines in
  let st1 := loaded_state lines
               (add_output [RuleLine; TitleLine; RuleLine] st) in
  (ps = [] /\
   run g env st = (Return tt, add_output [NoProxiesLine] st1))
  \/
  (ps <> [] /\ (MAX_WORKERS g <= 0)%Z /\
   run g env st =
     (Raise value_error,
      tick (add_output [StartLine (MAX_WORKERS g); TestUrlLine (TEST_URL g);
                        TimeoutLine (timeout (this st1))] st1)))
  \/
  (ps <> [] /\ (0 < MAX_WORKERS g)%Z /\
   exists e, first_raise (completed g env ps (this st1)) = Some e /\
             run g env st = (Raise e, after_probing g env ps st1))
  \/
  (ps <> [] /\ (0 < MAX_WORKERS g)%Z /\
   first_raise (completed g env ps (this st1)) = None /\
   run g env st = save_working_proxies env (summarized g env ps st1)).
Proof.
  intros Hread. cbv zeta.
  destruct (decide (stripped_lines lines = [])) as [Hp|Hne].
  - left. split; [exact Hp|]. rewrite run_spec. cbv zeta.
    rewrite Hread, Hp. reflexivity.
  - right. rewrite (run_nonempty g env st lines Hread Hne).
    destruct (Z.leb_spec (MAX_WORKERS g) 0) as [Hle|Hlt].
    + left. auto.
    + right. destruct (first_raise _) as [e|] eqn:Hfirst.
      * left. split; [exact Hne|]. split; [exact Hlt|]. eauto.
      * right. auto.
Qed.

Lemma first_raise_none fs :
  first_raise fs = None ->
  Forall (fun f => exists r, fut_result f = Return r) fs.
Proof.
  induction fs as [|f fs IH]; simpl; [constructor|].
  destruct (fut_result f) as [r|e] eqn:Hf; [|discriminate].
  intros H. constructor; [eauto | exact (IH H)].
Qed.

Lemma completed_length g env proxies self :
  length (completed g env proxies self) = length proxies.
Proof.
  unfold completed. rewrite as_completed_Permutation.
  rewrite length_map. revert self.
  generalize 0. induction proxies as [|p ps IH]; intros n self; simpl;
    [reflexivity | f_equal; apply IH].
Qed.

Lemma settled_length_le fs : length (settled fs) <= length fs.
Proof.
  induction fs as [|f fs IH]; simpl; [lia|].
  destruct (fut_result f); simpl; lia.
Qed.

Lemma settled_length_all fs :
  first_raise fs = None -> length (settled fs) = length fs.
Proof.
  intros H. apply first_raise_none, settled_all in H as (_ & Hids & _).
  apply (f_equal length) in Hids. rewrite !length_map in Hids. exact Hids.
Qed.

Lemma exit_of_counts o st :
  working_counts (stdout (exit_of o st).2) = working_counts (stdout st).
Proof.
  destruct (exit_of_state o st) as [-> | ->]; [reflexivity|].
  cbn. rewrite working_counts_app. cbn. apply app_nil_r.
Qed.

(** The summary is printed only by a run that loaded candidates, built
    the pool and consumed every future. *)
Lemma summary_reached env a fs0 w t :
  WorkingCountLine w t ∈ stdout (main env a fs0).2 ->
  exists lines,
    env_read env (input_file a) = ReadLines lines /\
    stripped_lines lines <> [] /\
    (0 < workers a)%Z /\
    first_raise (completed (globals_of a) env (stripped_lines lines)
                   (this (loaded_run a fs0 lines))) = None /\
    run (globals_of a) env (initial_state a fs0) =
      save_working_proxies env (summarized_run env a fs0 lines).
Proof.
  intros Hin. apply elem_of_working_counts in Hin.
  rewrite main_exit, exit_of_counts in Hin.
  destruct (env_read env (input_file a)) as [lines|e] eqn:Hread.
  - destruct (run_readable_cases (globals_of a) env (initial_state a fs0)
                lines Hread)
      as [(Hp & Hrun) | [(_ & Hle & Hrun) | [(_ & Hlt & e & _ & Hrun)
                                            | (Hne & Hlt & Hnone & Hrun)]]].
    + rewrite Hrun in Hin. cbn in Hin. inversion Hin.
    + rewrite Hrun in Hin. cbn in Hin. inversion Hin.
    + rewrite Hrun in Hin. cbn [snd] in Hin.
      rewrite after_probing_counts in Hin. cbn in Hin. inversion Hin.
    + exists lines. auto.
  - rewrite run_spec in Hin. cbv zeta in Hin.
    cbn [initial_state this __init__ proxy_file] in Hin.
    rewrite Hread in Hin.
    destruct (isinstance e FileNotFoundError);
      [|destruct (isinstance e Exception)]; cbn in Hin; inversion Hin.
Qed.

(** A batch that was consumed to the end has one entry per candidate
    in the two lists. *)
Lemma summarized_run_lengths env a fs0 lines :
  first_raise (completed (globals_of a) env (stripped_lines lines)
                 (this (loaded_run a fs0 lines))) = None ->
  length (working_proxies (this (summarized_run env a fs0 lines))) +
  length (failed_proxies (this (summarized_run env a fs0 lines)))
  = length (stripped_lines lines).
Proof.
  intros Hnone. rewrite summarized_run_this. cbn [record_results
    working_proxies failed_proxies set_total_proxies __init__ app].
  rewrite !length_map, working_failed_length, length_map.
  change (this (loaded_run a fs0 lines))
    with (set_total_proxies (length (stripped_lines lines))
            (__init__ (input_file a) (Some (output a)) (args_timeout a)))
    in Hnone.
  rewrite (settled_length_all _ Hnone). apply completed_length.
Qed.

(** *** The two lists against the submitted addresses *)

Lemma drain_map {A B} (f : A -> B) (fuel : nat) (sched : list nat)
    (l : list A) :
  drain fuel sched (map f l) = map f (drain fuel sched l).
Proof.
  revert sched l. induction fuel as [|fuel IH]; intros sched l; simpl;
    [reflexivity|].
  rewrite length_map, lookup_map.
  destruct (l !! (hd 0 sched `mod` length l)) as [x|]; simpl;
    [|reflexivity].
  f_equal. rewrite <- IH. f_equal.
  symmetry. exact (list_fmap_delete f l _).
Qed.

Lemma as_completed_map {A B} (f : A -> B) (sched : list nat) (l : list A) :
  as_completed sched (map f l) = map f (as_completed sched l).
Proof. unfold as_completed. rewrite length_map. apply drain_map. Qed.

Lemma futures_of_values g self env next proxies :
  map snd (futures_of g self env next proxies) = proxies.
Proof.
  revert next. induction proxies as [|p r IH]; intros next; simpl;
    [reflexivity | f_equal; apply IH].
Qed.

(** The addresses of the results consumed are the addresses of the
    first entries of the dictionary, in completion order. *)
Lemma settled_pairs (l : list (future * pystr)) :
  (forall f p r, (f, p) ∈ l -> fut_result f = Return r -> addr r = p) ->
  map addr (map snd (settled (map fst l))) =
    map snd (take (length (settled (map fst l))) l).
Proof.
  induction l as [|[f p] l IH]; intros Hl; [reflexivity|].
  cbn [map fst settled].
  destruct (fut_result f) as [r|e] eqn:Hf; [|reflexivity].
  cbn. f_equal.
  - apply (Hl f p r); [left | exact Hf].
  - apply IH. intros f' p' r' Hin. apply Hl. right. exact Hin.
Qed.

Lemma settled_addrs_submitted g env proxies self :
  map addr (map snd (settled (completed g env proxies self))) ⊆+ proxies.
Proof.
  unfold completed. rewrite as_completed_map.
  set (cps := as_completed (env_sched env)
                (futures_of g self env 0 proxies)).
  assert (Hperm : cps ≡ₚ futures_of g self env 0 proxies)
    by apply as_completed_Permutation.
  rewrite settled_pairs.
  - transitivity (map snd cps).
    + change (snd <$> take (length (settled (map fst cps))) cps
              ⊆+ snd <$> cps).
      apply fmap_submseteq, sublist_submseteq, sublist_take.
    + apply Permutation_submseteq.
      rewrite Hperm, futures_of_values. reflexivity.
  - intros f p r Hin Hr. rewrite Hperm in Hin.
    apply futures_of_elem in Hin as (_ & _ & Hres).
    rewrite Hres in Hr. exact (check_proxy_addr _ _ _ _ _ Hr).
Qed.

(** *** Progress lines *)

Lemma progress_lines_counters rs checked total :
  omap progress_counter (progress_lines rs checked total) =
    map (fun i => (i, total)) (seq (checked + 1) (length rs)).
Proof.
  revert checked. induction rs as [|r rs IH]; intros checked;
    [reflexivity|].
  cbn [progress_lines length seq map].
  replace (S (checked + 1)) with (checked + 1 + 1) by lia.
  rewrite <- IH. destruct (is_working r); reflexivity.
Qed.

(** *** Batches in which every probe returns *)

Lemma settled_elem fs i r :
  (i, r) ∈ settled fs ->
  exists f, f ∈ fs /\ fut_id f = i /\ fut_result f = Return r.
Proof.
  induction fs as [|f fs IH]; simpl; [intros H; inversion H|].
  destruct (fut_result f) as [r'|e] eqn:Hf; [|intros H; inversion H].
  intros H. apply elem_of_cons in H as [H|H].
  - injection H as -> ->. exists f. split; [left | auto].
  - destruct (IH H) as (f' & Hf' & Hid & Hr).
    exists f'. split; [right|]; auto.
Qed.

(** The flag of a result is [True] only for a response with status
    200. *)
Lemma check_proxy_flag g self w proxy r :
  (check_proxy g self w proxy).1 = Return r ->
  is_working r = true ->
  http_get w (probe_request g self proxy) = Response 200.
Proof.
  intros Hr Hw.
  destruct (http_get w (probe_request g self proxy)) as [code|e] eqn:Hget.
  - rewrite (check_proxy_response g self w proxy code Hget) in Hr.
    injection Hr as <-. cbn in Hw. apply Z.eqb_eq in Hw. congruence.
  - rewrite (check_proxy_fault g self w proxy e Hget) in Hr.
    destruct (handled e); [|discriminate].
    injection Hr as <-. discriminate.
Qed.

Lemma completed_return g env proxies self :
  network_raises_exceptions env (length proxies) ->
  Forall (fun f => exists r, fut_result f = Return r)
    (completed g env proxies self).
Proof.
  intros Hnet. unfold completed. rewrite as_completed_Permutation.
  apply futures_of_return. intros i req e Hi. apply Hnet. lia.
Qed.

Lemma completed_addrs g env proxies self :
  network_raises_exceptions env (length proxies) ->
  map addr (map snd (settled (completed g env proxies self))) ≡ₚ proxies.
Proof.
  intros Hnet.
  rewrite settled_addrs by (apply completed_return; exact Hnet).
  unfold completed. rewrite as_completed_Permutation.
  rewrite futures_of_addrs; [reflexivity|].
  apply futures_of_return. intros i req e Hi. apply Hnet. lia.
Qed.

Lemma no_probe_succeeds_network env n :
  no_probe_succeeds env n -> network_raises_exceptions env n.
Proof.
  intros Hno i req e Hi Hget.
  destruct (Hno i req Hi) as [(code & Hc & _) | (e' & He' & Hexc)].
  - congruence.
  - rewrite He' in Hget. injection Hget as <-. exact Hexc.
Qed.

Lemma no_probe_succeeds_flags g env proxies self :
  no_probe_succeeds env (length proxies) ->
  List.filter is_working
    (map snd (settled (completed g env proxies self))) = [].
Proof.
  intros Hno.
  assert (Hall : Forall (fun r => is_working r = false)
                   (map snd (settled (completed g env proxies self)))).
  { apply Forall_forall. intros r Hr.
    apply elem_of_map in Hr as [[i r'] [-> Hir]]. cbn.
    apply settled_elem in Hir as (f & Hf & _ & Hres).
    unfold completed in Hf. rewrite as_completed_Permutation in Hf.
    apply elem_of_map in Hf as [[f' p] [-> Hfp]]. cbn in Hres.
    apply futures_of_elem in Hfp as (_ & Hp & Hcp). cbn in Hcp.
    rewrite Hcp in Hres.
    destruct (is_working r') eqn:Hw; [|reflexivity].
    pose proof (check_proxy_flag _ _ _ _ _ Hres Hw) as H200.
    apply lookup_lt_Some in Hp.
    destruct (Hno (fut_id f') (probe_request g self p))
      as [(code & Hc & Hne) | (e & He & _)]; [lia | | ]; congruence. }
  induction Hall as [|r rs Hr _ IH]; [reflexivity|].
  cbn. rewrite Hr. exact IH.
Qed.

Lemma filter_failed_all (rs : list result_t) :
  List.filter is_working rs = [] -> List.filter failed_probe rs = rs.
Proof.
  induction rs as [|r rs IH]; [reflexivity|]. cbn. unfold failed_probe at 1.
  destruct (is_working r); [discriminate|]. cbn.
  intros H. rewrite (IH H). reflexivity.
Qed.

End StageFacts.

(* ===================================================================== *)
(** ** More facts about the worker pool *)
(* ===================================================================== *)

Section PoolProgress.

Import ThreadPool.

Lemma adjust_thread_count_staffed p :
  (0 < max_workers p)%Z ->
  (idle_semaphore p <> 0 -> threads p <> []) ->
  staffed (adjust_thread_count p).
Proof.
  intros Hmax Hidle. unfold staffed, adjust_thread_count.
  destruct (idle_semaphore p) as [|n] eqn:Hs.
  - destruct (Z.ltb_spec (Z.of_nat (length (threads p))) (max_workers p))
      as [Hlt|Hge]; cbn.
    + split; [exact Hmax|]. intros _ H.
      apply (f_equal length) in H. rewrite length_app in H. cbn in H. lia.
    + split; [exact Hmax|]. intros _ H. rewrite H in Hge. cbn in Hge. lia.
  - cbn. split; [exact Hmax|]. intros _. apply Hidle. discriminate.
Qed.

Lemma step_staffed c c' : step c c' -> staffed c.2 -> staffed c'.2.
Proof.
  intros Hstep [Hmax Hthr].
  destruct Hstep as [i todo p | t i rest todo p Ht Hq | t i todo p Ht];
    cbn in *.
  - unfold submit. apply adjust_thread_count_staffed; cbn; [exact Hmax|].
    intros Hs. apply Hthr. right. exact Hs.
  - split; [exact Hmax|]. intros _ H. cbn in H.
    apply (f_equal length) in H. rewrite length_insert in H.
    apply lookup_lt_Some in Ht. cbn in H. lia.
  - split; [exact Hmax|]. intros _ H. cbn in H.
    apply (f_equal length) in H. rewrite length_insert in H.
    apply lookup_lt_Some in Ht. cbn in H. lia.
Qed.

Lemma reachable_staffed c0 c : reachable c0 c -> staffed c0.2 -> staffed c.2.
Proof.
  induction 1 as [|c c' _ IH Hstep]; intros H0; [exact H0|].
  exact (step_staffed c c' Hstep (IH H0)).
Qed.

(** A worker that runs something, if any worker does. *)
Lemma running_thread (l : list (option nat)) :
  omap id l <> [] -> exists t i, l !! t = Some (Some i).
Proof.
  induction l as [|[i|] l IH]; cbn; intros H.
  - contradiction.
  - exists 0, i. reflexivity.
  - destruct (IH H) as (t & i & Ht). exists (S t), i. exact Ht.
Qed.

(** With nothing running, every thread waits for work. *)
Lemma idle_thread (l : list (option nat)) :
  omap id l = [] -> l <> [] -> l !! 0 = Some None.
Proof.
  destruct l as [|[i|] l]; cbn; intros H Hne;
    [contradiction | discriminate | reflexivity].
Qed.

End PoolProgress.

(* ===================================================================== *)
(** ** Further properties of the program *)
(* ===================================================================== *)

Section Further.

#[local] Arguments lit : simpl never.
#[local] Arguments strip : simpl never.
#[local] Arguments stripped_lines : simpl never.
#[local] Arguments probe_request : simpl never.
#[local] Arguments isinstance : simpl never.
#[local] Arguments check_proxy : simpl never.

(** X1.  [check_proxy] reports an address as working only when the GET
    came back with status 200: a result with the flag [True] means that
    the request returned a response, that its status code was 200, and
    that the third component is the measured duration. *)
Theorem check_proxy_working_only_on_200 g self w proxy r :
  (check_proxy g self w proxy).1 = Return r ->
  is_working r = true ->
  http_get w (probe_request g self proxy) = Response 200 /\
  r = (proxy, true, PyFloat (PrimFloat.sub (clock_end w) (clock_start w))).
Proof.
  intros Hr Hw.
  destruct (http_get w (probe_request g self proxy)) as [code|e] eqn:Hget.
  - rewrite (check_proxy_response g self w proxy code Hget) in Hr.
    injection Hr as <-. cbn in Hw. apply Z.eqb_eq in Hw. subst code.
    split; reflexivity.
  - rewrite (check_proxy_fault g self w proxy e Hget) in Hr.
    destruct (handled e); [|discriminate].
    injection Hr as <-. discriminate.
Qed.

Lemma check_proxy_working_only_on_200_witness :
  (check_proxy initial_globals (this Demo.loaded) (Demo.probe 0)
     (lit "1.2.3.4:8080")).1
    = Return (lit "1.2.3.4:8080", true, PyFloat (float_of_nat 2)) /\
  is_working (lit "1.2.3.4:8080", true, PyFloat (float_of_nat 2)) = true /\
  http_get (Demo.probe 0)
    (probe_request initial_globals (this Demo.loaded) (lit "1.2.3.4:8080"))
    = Response 200.
Proof.
  assert (H : (check_proxy initial_globals (this Demo.loaded) (Demo.probe 0)
                 (lit "1.2.3.4:8080")).1
              = Return (lit "1.2.3.4:8080", true, PyFloat (float_of_nat 2)))
    by (vm_compute; reflexivity).
  split; [exact H|]. split; [reflexivity|].
  exact (proj1 (check_proxy_working_only_on_200 _ _ _ _ _ H eq_refl)).
Defined.

(** X2.  The proxy URL of a probe always has a scheme: [://] occurs in
    it whatever the address was, and putting an address through the
    normalization twice changes nothing more. *)
Theorem proxy_url_has_scheme proxy :
  contains (lit "://") (proxy_url_of proxy) = true /\
  proxy_url_of (proxy_url_of proxy) = proxy_url_of proxy.
Proof.
  assert (H : contains (lit "://") (proxy_url_of proxy) = true).
  { unfold proxy_url_of.
    destruct (contains (lit "://") proxy) eqn:Hc; cbn [negb]; [exact Hc|].
    apply contains_spec. exists (lit "http"), proxy. reflexivity. }
  split; [exact H|].
  unfold proxy_url_of at 1. rewrite H. reflexivity.
Qed.

(** X3.  [load_proxies] takes off the whitespace around a line and
    nothing else: a line made of a blank margin, a text that begins and
    ends with a character that is not whitespace, and another blank
    margin gives exactly that text, whitespace inside it included. *)
Theorem load_proxies_strips_margins_only env st a m b :
  env_read env (proxy_file (this st)) = ReadLines [a ++ m ++ b] ->
  blank a = true -> blank b = true -> m <> [] ->
  (forall c r, m = c :: r -> isspace c = false) ->
  (forall c r, m = r ++ [c] -> isspace c = false) ->
  (load_proxies env st).1 = Return [m].
Proof.
  intros Hread Ha Hb Hm Hhead Hlast.
  rewrite (load_proxies_lines env st _ Hread). cbn [fst]. f_equal.
  unfold stripped_lines. cbn [List.filter map].
  rewrite (strip_margins a m b Ha Hb Hhead Hlast).
  destruct m as [|c r] eqn:Em; [contradiction|]. rewrite <- Em in *.
  cbn [truthy map]. rewrite Em at 1. cbn [truthy map].
  rewrite (strip_margins a m b Ha Hb Hhead Hlast). reflexivity.
Qed.

Lemma load_proxies_strips_margins_only_witness :
  env_read Demo2.spaced_env (proxy_file (this Demo.loaded))
    = ReadLines [lit "  " ++ lit "a b" ++ newline] /\
  blank (lit "  ") = true /\ blank newline = true /\
  (load_proxies Demo2.spaced_env Demo.loaded).1 = Return [lit "a b"].
Proof.
  split; [reflexivity|]. split; [reflexivity|]. split; [reflexivity|].
  apply (load_proxies_strips_margins_only Demo2.spaced_env Demo.loaded
           (lit "  ") (lit "a b") newline);
    [reflexivity | reflexivity | reflexivity | discriminate | |].
  - intros c r H. vm_compute in H. injection H as <- _. reflexivity.
  - intros c r H. apply (f_equal (@last N)) in H.
    rewrite last_snoc in H. vm_compute in H. injection H as <-.
    reflexivity.
Defined.

(** X4.  The lines [save_working_proxies] writes can be loaded again:
    for addresses that came out of [load_proxies], stripping the lines
    [address + newline] gives the same addresses back, in the same
    order. *)
Theorem saved_lines_reload lines ws :
  (forall p, p ∈ ws -> p ∈ stripped_lines lines) ->
  stripped_lines (map (fun proxy => proxy ++ newline) ws) = ws.
Proof.
  intros Hsub. induction ws as [|p ws IH]; [reflexivity|].
  assert (Hp : trimmed p)
    by (apply (stripped_lines_trimmed_all lines), Hsub; left).
  unfold stripped_lines in *. cbn [map List.filter].
  rewrite (strip_line p Hp).
  destruct p as [|c r] eqn:Ep; [destruct Hp as [Hp _]; contradiction|].
  rewrite <- Ep in *. rewrite Ep at 1. cbn [truthy map].
  rewrite (strip_line p Hp). f_equal.
  apply IH. intros q Hq. apply Hsub. right. exact Hq.
Qed.

Lemma saved_lines_reload_witness :
  (forall p, p ∈ [lit "1.2.3.4:8080"] -> p ∈ stripped_lines Demo.lines) /\
  stripped_lines (map (fun proxy => proxy ++ newline) [lit "1.2.3.4:8080"])
    = [lit "1.2.3.4:8080"].
Proof.
  assert (H : forall p, p ∈ [lit "1.2.3.4:8080"] ->
                        p ∈ stripped_lines Demo.lines).
  { intros p Hp. apply list_elem_of_singleton in Hp. subst p.
    vm_compute. apply list_elem_of_here. }
  split; [exact H|].
  exact (saved_lines_reload Demo.lines [lit "1.2.3.4:8080"] H).
Defined.

(** X5.  A run sends one request per loaded candidate, duplicates
    included, once the pool exists, in whatever order the workers get
    to them: with a readable input file the requests sent are, up to
    their order, the probe requests of the candidates when the worker
    count is positive, and there is none when it is not. *)
Theorem main_sends_one_request_per_candidate env a fs0 lines :
  env_read env (input_file a) = ReadLines lines ->
  sent (main env a fs0).2 ≡ₚ
    if (0 <? workers a)%Z then
      map (probe_request (globals_of a)
             (__init__ (input_file a) (Some (output a)) (args_timeout a)))
        (stripped_lines lines)
    else [].
Proof.
  intros Hread. rewrite main_exit.
  destruct (exit_of_frame
              (run (globals_of a) env (initial_state a fs0)).1
              (run (globals_of a) env (initial_state a fs0)).2)
    as (_ & _ & ->).
  destruct (run_readable_cases (globals_of a) env (initial_state a fs0)
              lines Hread)
    as [(Hp & ->) | [(_ & Hle & ->) | [(_ & Hlt & e & _ & ->)
                                      | (_ & Hlt & _ & ->)]]].
  - rewrite Hp. cbn. destruct (0 <? workers a)%Z; reflexivity.
  - cbn in Hle. destruct (Z.ltb_spec 0 (workers a)); [lia | reflexivity].
  - cbn in Hlt. destruct (Z.ltb_spec 0 (workers a)); [|lia].
    cbn [snd after_probing sent loaded_state add_output initial_state app].
    apply as_completed_Permutation.
  - cbn in Hlt. destruct (Z.ltb_spec 0 (workers a)); [|lia].
    destruct (save_working_proxies_frame env
                (summarized (globals_of a) env (stripped_lines lines)
                   (loaded_state lines
                      (add_output [RuleLine; TitleLine; RuleLine]
                         (initial_state a fs0))))) as (_ & -> & _).
    unfold summarized. cbv zeta.
    cbn [snd after_probing sent loaded_state add_output initial_state tick
         app].
    apply as_completed_Permutation.
Qed.

Lemma main_sends_one_request_per_candidate_witness :
  env_read Demo.env (input_file Demo.demo_args) = ReadLines Demo.lines /\
  length (sent (main Demo.env Demo.demo_args ∅).2) = 2.
Proof.
  split; [reflexivity|].
  rewrite (main_sends_one_request_per_candidate Demo.env Demo.demo_args ∅
             Demo.lines eq_refl).
  reflexivity.
Defined.

(** X6.  A worker count that is not positive ends the run after the
    input is loaded: the pool cannot be built, the process exits with
    status 1 having printed the banner, the number of candidates and
    the three start lines; nothing is probed and no file is written. *)
Theorem main_rejects_nonpositive_workers env a fs0 lines :
  env_read env (input_file a) = ReadLines lines ->
  stripped_lines lines <> [] ->
  (workers a <= 0)%Z ->
  main env a fs0 =
    (1%Z,
     {| this := set_total_proxies (length (stripped_lines lines))
                  (__init__ (input_file a) (Some (output a))
                     (args_timeout a));
        stdout := [RuleLine; TitleLine; RuleLine;
                   LoadedLine (length (stripped_lines lines)) (input_file a);
                   StartLine (workers a); TestUrlLine (url a);
                   TimeoutLine (args_timeout a)];
        files := fs0; sent := []; ticks := 1 |}).
Proof.
  intros Hread Hne Hle. rewrite main_exit.
  destruct (run_readable_cases (globals_of a) env (initial_state a fs0)
              lines Hread)
    as [(Hp & _) | [(_ & _ & ->) | [(_ & Hlt & _) | (_ & Hlt & _)]]].
  - contradiction.
  - reflexivity.
  - cbn in Hlt. lia.
  - cbn in Hlt. lia.
Qed.

Lemma main_rejects_nonpositive_workers_witness :
  env_read Demo.env (input_file Demo2.zero_workers) = ReadLines Demo.lines /\
  stripped_lines Demo.lines <> [] /\
  (workers Demo2.zero_workers <= 0)%Z /\
  (main Demo.env Demo2.zero_workers ∅).1 = 1%Z /\
  sent (main Demo.env Demo2.zero_workers ∅).2 = [].
Proof.
  assert (Hne : stripped_lines Demo.lines <> [])
    by (vm_compute; discriminate).
  assert (Hle : (workers Demo2.zero_workers <= 0)%Z) by (cbn; lia).
  split; [reflexivity|]. split; [exact Hne|]. split; [exact Hle|].
  rewrite (main_rejects_nonpositive_workers Demo.env Demo2.zero_workers ∅
             Demo.lines eq_refl Hne Hle).
  split; reflexivity.
Defined.

(** X7.  Whenever a run prints its summary, the counts in it agree with
    the two lists and add up: the working count is the length of
    [working_proxies], the failed count line shows the length of
    [failed_proxies] against the same total, and the two lengths sum to
    that total. *)
Theorem summary_counts_add_up env a fs0 w t :
  let st' := (main env a fs0).2 in
  WorkingCountLine w t ∈ stdout st' ->
  w = length (working_proxies (this st')) /\
  FailedCountLine (length (failed_proxies (this st'))) t ∈ stdout st' /\
  w + length (failed_proxies (this st')) = t.
Proof.
  cbv zeta. intros Hin.
  destruct (summary_reached env a fs0 w t Hin)
    as (lines & Hread & Hne & Hpos & Hnone & Hrun).
  apply elem_of_working_counts in Hin.
  rewrite main_exit in *. rewrite exit_of_counts in Hin.
  rewrite Hrun in *.
  destruct (save_working_proxies_frame env (summarized_run env a fs0 lines))
    as (Hthis & _ & (l & Hout & Hl) & _). cbv zeta in Hthis, Hout.
  rewrite Hout, working_counts_app, Hl, app_nil_r in Hin.
  rewrite summarized_run_counts in Hin.
  apply list_elem_of_singleton in Hin. injection Hin as -> ->.
  destruct (exit_of_frame (save_working_proxies env
                             (summarized_run env a fs0 lines)).1
              (save_working_proxies env (summarized_run env a fs0 lines)).2)
    as (-> & _ & _).
  rewrite Hthis.
  pose proof (summarized_run_lengths env a fs0 lines Hnone) as Hlen.
  split; [reflexivity|]. split; [|exact Hlen].
  assert (Hf : FailedCountLine
                 (length (failed_proxies (this (summarized_run env a fs0
                                                   lines))))
                 (length (stripped_lines lines))
               ∈ stdout (save_working_proxies env
                           (summarized_run env a fs0 lines)).2).
  { rewrite Hout. apply elem_of_app. left.
    unfold summarized_run, summarized. cbv zeta. cbn [add_output stdout].
    apply elem_of_app. right.
    do 3 apply list_elem_of_further. apply list_elem_of_here. }
  destruct (exit_of_state (save_working_proxies env
                             (summarized_run env a fs0 lines)).1
              (save_working_proxies env (summarized_run env a fs0 lines)).2)
    as [-> | ->]; [exact Hf|].
  cbn [add_output stdout]. apply elem_of_app. left. exact Hf.
Qed.

Lemma summary_counts_add_up_witness :
  WorkingCountLine 1 2 ∈ stdout (main Demo.env Demo.demo_args ∅).2 /\
  1 = length (working_proxies (this (main Demo.env Demo.demo_args ∅).2)) /\
  1 + length (failed_proxies (this (main Demo.env Demo.demo_args ∅).2)) = 2.
Proof.
  assert (Hin : WorkingCountLine 1 2
                  ∈ stdout (main Demo.env Demo.demo_args ∅).2).
  { vm_compute.
    repeat first [apply list_elem_of_here | apply list_elem_of_further]. }
  split; [exact Hin|].
  destruct (summary_counts_add_up Demo.env Demo.demo_args ∅ 1 2 Hin)
    as (Hw & _ & Hsum).
  split; [exact Hw | exact Hsum].
Defined.

(** X8.  A run writes to no file but its output file: every other path
    of the file system holds after the run what it held before, whatever
    the environment does.  The output file is the [-o] argument, or
    [working_proxies.txt] when that argument is empty. *)
Theorem main_writes_only_output_file env a fs0 path :
  path <> output_path a ->
  files (main env a fs0).2 !! path = fs0 !! path.
Proof.
  intros Hpath.
  destruct (main_cases env a fs0) as [(_ & -> & _) | Hsum];
    [reflexivity|].
  destruct Hsum as (lines & _ & _ & _ & _ & [-> | (content & -> & _)]);
    [reflexivity|].
  apply lookup_insert_ne. intros Heq. apply Hpath. rewrite <- Heq.
  reflexivity.
Qed.

Lemma main_writes_only_output_file_witness :
  lit "proxies.txt" <> output_path Demo.demo_args /\
  files (main Demo.env Demo.demo_args
           {[ lit "proxies.txt" := lit "kept" ]}).2 !! lit "proxies.txt"
    = Some (lit "kept").
Proof.
  assert (H : lit "proxies.txt" <> output_path Demo.demo_args)
    by (vm_compute; discriminate).
  split; [exact H|].
  rewrite (main_writes_only_output_file Demo.env Demo.demo_args
             {[ lit "proxies.txt" := lit "kept" ]} (lit "proxies.txt") H).
  reflexivity.
Defined.

(** X9.  An interrupt before the saving stage ends the process with
    status 0 and no output: when reading the input file or the result
    of a probe raises [KeyboardInterrupt], the last line printed is the
    interruption notice, no summary is printed and the file system is
    as it was. *)
Theorem main_interrupt_leaves_no_output env a fs0 e :
  isinstance e KeyboardInterrupt = true ->
  isinstance e FileNotFoundError = false ->
  isinstance e Exception = false ->
  env_read env (input_file a) = ReadRaises e \/
  (exists lines,
     env_read env (input_file a) = ReadLines lines /\
     stripped_lines lines <> [] /\ (0 < workers a)%Z /\
     first_raise (completed (globals_of a) env (stripped_lines lines)
                    (this (loaded_run a fs0 lines))) = Some e) ->
  (main env a fs0).1 = 0%Z /\
  files (main env a fs0).2 = fs0 /\
  last (stdout (main env a fs0).2) = Some InterruptedLine /\
  working_counts (stdout (main env a fs0).2) = [].
Proof.
  intros Hki Hfnf Hexc Hstage. rewrite main_exit.
  assert (Hrun : exists st,
            run (globals_of a) env (initial_state a fs0) = (Raise e, st) /\
            files st = fs0 /\ working_counts (stdout st) = []).
  { destruct Hstage as [Hread | (lines & Hread & Hne & Hpos & Hfirst)].
    - rewrite run_spec. cbv zeta.
      cbn [initial_state this __init__ proxy_file].
      rewrite Hread, Hfnf, Hexc. eexists. split; [reflexivity|].
      split; reflexivity.
    - destruct (run_readable_cases (globals_of a) env (initial_state a fs0)
                  lines Hread)
        as [(Hp & _) | [(_ & Hle & _) | [(_ & _ & e' & Hfirst' & Hrun)
                                        | (_ & _ & Hnone & _)]]].
      + contradiction.
      + cbn in Hle. lia.
      + unfold loaded_run in Hfirst. rewrite Hfirst in Hfirst'.
        injection Hfirst' as <-. eexists. split; [exact Hrun|].
        split; [reflexivity|]. rewrite after_probing_counts. reflexivity.
      + unfold loaded_run in Hfirst. congruence. }
  destruct Hrun as (st & -> & Hfiles & Hcounts).
  cbn [fst snd exit_of]. rewrite Hki. cbn [fst snd add_output files stdout].
  split; [reflexivity|]. split; [exact Hfiles|].
  split; [apply last_snoc|].
  rewrite working_counts_app, Hcounts. reflexivity.
Qed.

Lemma main_interrupt_leaves_no_output_witness :
  isinstance keyboard_interrupt KeyboardInterrupt = true /\
  env_read Demo2.interrupted_env (input_file Demo.demo_args)
    = ReadRaises keyboard_interrupt /\
  (main Demo2.interrupted_env Demo.demo_args ∅).1 = 0%Z /\
  files (main Demo2.interrupted_env Demo.demo_args ∅).2 = ∅.
Proof.
  split; [reflexivity|]. split; [reflexivity|].
  destruct (main_interrupt_leaves_no_output Demo2.interrupted_env
              Demo.demo_args ∅ keyboard_interrupt eq_refl eq_refl eq_refl
              (or_introl eq_refl)) as (Hst & Hf & _).
  split; [exact Hst | exact Hf].
Defined.

(** X10.  [check_all_proxies] only ever adds to the two result lists,
    and never more than it was given: what it appends to
    [working_proxies] and [failed_proxies] together is, as a multiset,
    part of the submitted addresses (each address at most as often as it
    was submitted), also when the loop is cut short.  It leaves
    [total_proxies], the two file names, the timeout and the file system
    as they were. *)
Theorem check_all_proxies_appends g env proxies st :
  let st' := (check_all_proxies g env proxies st).2 in
  exists w f,
    working_proxies (this st') = working_proxies (this st) ++ w /\
    failed_proxies (this st') = failed_proxies (this st) ++ f /\
    w ++ f ⊆+ proxies /\
    total_proxies (this st') = total_proxies (this st) /\
    proxy_file (this st') = proxy_file (this st) /\
    output_file (this st') = output_file (this st) /\
    timeout (this st') = timeout (this st) /\
    files st' = files st.
Proof.
  cbv zeta. destruct (Z.leb_spec (MAX_WORKERS g) 0) as [Hle|Hlt].
  - rewrite check_all_proxies_no_pool by exact Hle.
    exists [], []. cbn. rewrite !app_nil_r.
    repeat split. apply submseteq_nil_l.
  - set (rs := map snd (settled (completed g env proxies (this st)))).
    exists (map addr (List.filter is_working rs)),
           (map addr (List.filter failed_probe rs)).
    assert (Hsub : map addr (List.filter is_working rs) ++
                   map addr (List.filter failed_probe rs) ⊆+ proxies).
    { rewrite working_failed_Permutation.
      apply settled_addrs_submitted. }
    rewrite check_all_proxies_spec by exact Hlt.
    destruct (first_raise _).
    + cbn. fold rs. repeat split. exact Hsub.
    + rewrite print_summary_spec. cbv zeta.
      destruct (py_truediv _ _); cbn; fold rs; repeat split; exact Hsub.
Qed.

(** X11.  The progress lines of a batch count up from 1: the lines
    [check_all_proxies] prints for the results show the counters
    1, 2, ..., k in this order, each against the [total_proxies] of the
    object, where k is at most the number of submitted addresses, and
    is that number whenever the method returns. *)
Theorem progress_lines_count_up g env proxies st :
  let r := check_all_proxies g env proxies st in
  exists k,
    k <= length proxies /\
    omap progress_counter (stdout r.2) =
      omap progress_counter (stdout st) ++
      map (fun i => (i, total_proxies (this st))) (seq 1 k) /\
    (r.1 = Return tt -> k = length proxies).
Proof.
  cbv zeta. destruct (Z.leb_spec (MAX_WORKERS g) 0) as [Hle|Hlt].
  - rewrite check_all_proxies_no_pool by exact Hle.
    exists 0. split; [lia|]. split; [|discriminate].
    cbn. rewrite omap_app. cbn. rewrite !app_nil_r. reflexivity.
  - set (fs := completed g env proxies (this st)).
    assert (Hout : omap progress_counter
                     (stdout (after_probing g env proxies st)) =
                   omap progress_counter (stdout st) ++
                   map (fun i => (i, total_proxies (this st)))
                     (seq 1 (length (settled fs)))).
    { unfold after_probing. cbn [stdout]. rewrite !omap_app.
      rewrite progress_lines_counters, length_map. reflexivity. }
    exists (length (settled fs)). split.
    { rewrite <- (completed_length g env proxies (this st)).
      apply settled_length_le. }
    rewrite check_all_proxies_spec by exact Hlt. fold fs.
    destruct (first_raise fs) as [e|] eqn:Hfirst.
    + split; [exact Hout | discriminate].
    + rewrite print_summary_spec. cbv zeta.
      assert (Hk : length (settled fs) = length proxies).
      { rewrite (settled_length_all fs Hfirst).
        apply completed_length. }
      destruct (py_truediv _ _); cbn [fst snd add_output stdout tick];
        (split; [|intros _; exact Hk]);
        rewrite omap_app; cbn [omap progress_counter];
        rewrite app_nil_r; exact Hout.
Qed.

(** X12.  When no probe gets a 200 (each one gets another status code
    or a fault of class [Exception]), the run still ends with status 0:
    [working_proxies] stays empty, every candidate is in
    [failed_proxies], the summary shows 0 working out of the total, the
    last line says that there is nothing to save, and the file system is
    untouched. *)
Theorem main_saves_nothing_when_all_fail env a fs0 lines :
  env_read env (input_file a) = ReadLines lines ->
  stripped_lines lines <> [] ->
  (0 < workers a)%Z ->
  no_probe_succeeds env (length (stripped_lines lines)) ->
  let r := main env a fs0 in
  r.1 = 0%Z /\
  working_proxies (this r.2) = [] /\
  failed_proxies (this r.2) ≡ₚ stripped_lines lines /\
  files r.2 = fs0 /\
  WorkingCountLine 0 (length (stripped_lines lines)) ∈ stdout r.2 /\
  last (stdout r.2) = Some NothingToSaveLine.
Proof.
  intros Hread Hne Hpos Hno. cbv zeta.
  pose proof (no_probe_succeeds_network _ _ Hno) as Hnet.
  set (ps := stripped_lines lines) in *.
  set (self := this (loaded_run a fs0 lines)).
  assert (Hnone : first_raise (completed (globals_of a) env ps self) = None).
  { apply settled_all, completed_return. exact Hnet. }
  assert (Hwork : working_proxies (this (summarized_run env a fs0 lines))
                  = []).
  { rewrite summarized_run_this. cbn [record_results working_proxies
      set_total_proxies __init__ app].
    fold ps. rewrite (no_probe_succeeds_flags _ _ _ _ Hno). reflexivity. }
  assert (Hfail : failed_proxies (this (summarized_run env a fs0 lines))
                  ≡ₚ ps).
  { rewrite summarized_run_this. cbn [record_results failed_proxies
      set_total_proxies __init__ app].
    fold ps.
    rewrite (filter_failed_all _ (no_probe_succeeds_flags _ _ _ _ Hno)).
    apply completed_addrs. exact Hnet. }
  rewrite main_exit.
  destruct (run_readable_cases (globals_of a) env (initial_state a fs0)
              lines Hread)
    as [(Hp & _) | [(_ & Hle & _) | [(_ & _ & e & Hfirst & _)
                                    | (_ & _ & _ & ->)]]].
  - contradiction.
  - cbn in Hle. lia.
  - unfold self, loaded_run in Hnone. fold ps in Hfirst. congruence.
  - fold (summarized_run env a fs0 lines).
    rewrite save_working_proxies_spec. cbv zeta. rewrite Hwork.
    cbn [fst snd exit_of add_output this files stdout].
    split; [reflexivity|]. split; [exact Hwork|]. split; [exact Hfail|].
    split; [reflexivity|]. split; [|apply last_snoc].
    apply elem_of_app. left.
    unfold summarized_run, summarized. cbv zeta. cbn [add_output stdout].
    apply elem_of_app. right.
    change (this (tick (after_probing (globals_of a) env
                          (stripped_lines lines)
                          (loaded_state lines
                             (add_output [RuleLine; TitleLine; RuleLine]
                                (initial_state a fs0))))))
      with (this (summarized_run env a fs0 lines)).
    rewrite Hwork. cbn [length].
    do 2 apply list_elem_of_further. apply list_elem_of_here.
Qed.

Lemma main_saves_nothing_when_all_fail_witness :
  env_read Demo2.failing_env (input_file Demo.demo_args)
    = ReadLines Demo.lines /\
  no_probe_succeeds Demo2.failing_env (length (stripped_lines Demo.lines)) /\
  (main Demo2.failing_env Demo.demo_args ∅).1 = 0%Z /\
  working_proxies (this (main Demo2.failing_env Demo.demo_args ∅).2) = [] /\
  files (main Demo2.failing_env Demo.demo_args ∅).2 = ∅.
Proof.
  assert (Hne : stripped_lines Demo.lines <> [])
    by (vm_compute; discriminate).
  assert (Hno : no_probe_succeeds Demo2.failing_env
                  (length (stripped_lines Demo.lines))).
  { intros [|i] req _.
    - left. exists 404%Z. split; [reflexivity | discriminate].
    - right. exists connect_timeout. split; reflexivity. }
  split; [reflexivity|]. split; [exact Hno|].
  destruct (main_saves_nothing_when_all_fail Demo2.failing_env
              Demo.demo_args ∅ Demo.lines eq_refl Hne eq_refl Hno)
    as (Hst & Hw & _ & Hf & _).
  split; [exact Hst|]. split; [exact Hw | exact Hf].
Defined.

(** X14.  With an output file that takes the writes and a network
    layer that raises nothing but [Exception]s, a run in which some
    probe succeeded leaves in its output file the addresses of
    [working_proxies] and nothing else, one per line in list order,
    whatever the file held before; the exit status is 0 and the last
    line printed reports the save. *)
Theorem main_saves_working_list env a fs0 lines :
  env_read env (input_file a) = ReadLines lines ->
  stripped_lines lines <> [] ->
  (0 < workers a)%Z ->
  network_raises_exceptions env (length (stripped_lines lines)) ->
  (forall path, env_open_w env path = None) ->
  (forall k, env_write env k = None) ->
  env_close env = None ->
  let r := main env a fs0 in
  working_proxies (this r.2) <> [] ->
  r.1 = 0%Z /\
  files r.2 = <[output_path a := lines_of (working_proxies (this r.2))]> fs0 /\
  last (stdout r.2) = Some (SavedLine (output_path a)).
Proof.
  intros Hread Hne Hpos Hnet Hopen Hwrite Hclose. cbv zeta.
  assert (Hnone : first_raise (completed (globals_of a) env
                                 (stripped_lines lines)
                                 (this (loaded_run a fs0 lines))) = None).
  { apply settled_all, completed_return. exact Hnet. }
  rewrite main_exit.
  destruct (run_readable_cases (globals_of a) env (initial_state a fs0)
              lines Hread)
    as [(Hp & _) | [(_ & Hle & _) | [(_ & _ & e & Hfirst & _)
                                    | (_ & _ & _ & ->)]]].
  - contradiction.
  - cbn in Hle. lia.
  - unfold loaded_run in Hnone. congruence.
  - fold (summarized_run env a fs0 lines).
    rewrite save_working_proxies_spec. cbv zeta.
    set (ws := working_proxies (this (summarized_run env a fs0 lines))).
    assert (Hio : io_failure env
                    (output_file (this (summarized_run env a fs0 lines)))
                    ws = None).
    { unfold io_failure. rewrite Hopen.
      assert (Hw : (write_lines env 0 [] ws).2 = None).
      { generalize 0, (@nil N).
        induction ws as [|p ps IH]; intros k text; cbn [write_lines];
          [reflexivity|]. unfold f_write. rewrite Hwrite. apply IH. }
      rewrite Hw, Hclose. reflexivity. }
    assert (Hcontent : (write_lines env 0 [] ws).1 = lines_of ws).
    { apply write_lines_complete. unfold io_failure in Hio.
      rewrite Hopen in Hio.
      destruct ((write_lines env 0 [] ws).2), (env_close env);
        try discriminate. reflexivity. }
    destruct ws as [|p ps] eqn:Hws.
    + cbn. intros H. contradiction.
    + rewrite <- Hws in *. rewrite Hio, Hcontent.
      cbn [fst snd exit_of add_output with_file this files stdout].
      intros _. split; [reflexivity|]. split; [reflexivity|].
      apply last_snoc.
Qed.

Lemma main_saves_working_list_witness :
  env_read Demo.env (input_file Demo.demo_args) = ReadLines Demo.lines /\
  network_raises_exceptions Demo.env (length (stripped_lines Demo.lines)) /\
  working_proxies (this (main Demo.env Demo.demo_args
                           {[ lit "working_proxies.txt" := lit "old" ]}).2)
    <> [] /\
  files (main Demo.env Demo.demo_args
           {[ lit "working_proxies.txt" := lit "old" ]}).2
    !! lit "working_proxies.txt" = Some (lit "1.2.3.4:8080" ++ newline).
Proof.
  assert (Hne : stripped_lines Demo.lines <> [])
    by (vm_compute; discriminate).
  assert (Hnet : network_raises_exceptions Demo.env
                   (length (stripped_lines Demo.lines))).
  { intros [|i] req e _ H; cbn in H; [discriminate|].
    injection H as <-. reflexivity. }
  assert (Hw : working_proxies
                 (this (main Demo.env Demo.demo_args
                          {[ lit "working_proxies.txt" := lit "old" ]}).2)
               <> []) by (vm_compute; discriminate).
  split; [reflexivity|]. split; [exact Hnet|]. split; [exact Hw|].
  destruct (main_saves_working_list Demo.env Demo.demo_args
              {[ lit "working_proxies.txt" := lit "old" ]} Demo.lines
              eq_refl Hne eq_refl Hnet (fun _ => eq_refl) (fun _ => eq_refl)
              eq_refl Hw) as (_ & Hf & _).
  rewrite Hf. vm_compute. reflexivity.
Defined.

(** X15.  The pool loses no work item and runs none twice: in every
    state the dispatcher and the workers can reach, the items still to
    submit, those queued, those running and those finished are together
    the items of the batch, each as often as it was given; so when
    nothing is left to submit, queued or running, the futures finished
    are the futures of the batch in some order. *)
Theorem pool_runs_each_item_once n p0 ids c :
  ThreadPool.ThreadPoolExecutor n = Return p0 ->
  ThreadPool.reachable (ids, p0) c ->
  c.1 ++ ThreadPool.work_queue c.2 ++ ThreadPool.running c.2 ++
    ThreadPool.finished c.2 ≡ₚ ids /\
  (c.1 = [] -> ThreadPool.work_queue c.2 = [] ->
   ThreadPool.running c.2 = [] -> ThreadPool.finished c.2 ≡ₚ ids).
Proof.
  intros Hnew Hreach.
  pose proof (reachable_conserves_work _ _ Hreach) as Hperm.
  unfold ThreadPool.all_work in Hperm.
  unfold ThreadPool.ThreadPoolExecutor in Hnew.
  destruct (n <=? 0)%Z; [discriminate|]. injection Hnew as <-.
  cbn in Hperm. rewrite app_nil_r in Hperm.
  split; [exact Hperm|].
  intros Htodo Hq Hrun. rewrite Htodo, Hq, Hrun in Hperm. exact Hperm.
Qed.

Lemma pool_runs_each_item_once_witness :
  ThreadPool.ThreadPoolExecutor 1 =
    Return {| ThreadPool.max_workers := 1; ThreadPool.work_queue := [];
              ThreadPool.threads := []; ThreadPool.idle_semaphore := 0;
              ThreadPool.finished := [] |} /\
  ThreadPool.reachable
    ([0; 1],
     {| ThreadPool.max_workers := 1; ThreadPool.work_queue := [];
        ThreadPool.threads := []; ThreadPool.idle_semaphore := 0;
        ThreadPool.finished := [] |}) Demo2.done_pool /\
  ThreadPool.finished Demo2.done_pool.2 = [0; 1] /\
  ThreadPool.finished Demo2.done_pool.2 ≡ₚ [0; 1].
Proof.
  assert (Hreach : ThreadPool.reachable
    ([0; 1],
     {| ThreadPool.max_workers := 1; ThreadPool.work_queue := [];
        ThreadPool.threads := []; ThreadPool.idle_semaphore := 0;
        ThreadPool.finished := [] |}) Demo2.done_pool).
  { unfold Demo2.done_pool, Demo.busy_pool. cbn [snd].
    eapply ThreadPool.reach_step.
    2: { apply (ThreadPool.step_finish 0 1 []). reflexivity. }
    eapply ThreadPool.reach_step.
    2: { apply (ThreadPool.step_take 0 1 [] []); reflexivity. }
    eapply ThreadPool.reach_step.
    2: { apply (ThreadPool.step_finish 0 0 []). reflexivity. }
    eapply ThreadPool.reach_step.
    2: { apply (ThreadPool.step_submit 1 []). }
    eapply ThreadPool.reach_step.
    2: { apply (ThreadPool.step_take 0 0 [] [1]); reflexivity. }
    eapply ThreadPool.reach_step.
    2: { apply (ThreadPool.step_submit 0 [1]). }
    apply ThreadPool.reach_start. }
  split; [reflexivity|]. split; [exact Hreach|]. split; [reflexivity|].
  exact (proj2 (pool_runs_each_item_once 1 _ [0; 1] Demo2.done_pool
                  eq_refl Hreach) eq_refl eq_refl eq_refl).
Defined.

(** X16.  The pool never gets stuck with work left: in every reachable
    state in which something is still to submit, queued or running, some
    thread can take a step, so no probe waits for ever for a worker. *)
Theorem pool_never_stuck n p0 ids c :
  ThreadPool.ThreadPoolExecutor n = Return p0 ->
  ThreadPool.reachable (ids, p0) c ->
  c.1 <> [] \/ ThreadPool.work_queue c.2 <> [] \/
    ThreadPool.running c.2 <> [] ->
  exists c', ThreadPool.step c c'.
Proof.
  intros Hnew Hreach Hwork.
  assert (Hst : staffed c.2).
  { apply (reachable_staffed _ _ Hreach).
    unfold ThreadPool.ThreadPoolExecutor in Hnew.
    destruct (Z.leb_spec n 0) as [Hle|Hpos]; [discriminate|].
    injection Hnew as <-. split; [exact Hpos|]. cbn.
    intros [H|H]; contradiction. }
  destruct c as [todo p]. cbn in *.
  destruct todo as [|i todo].
  - destruct (decide (ThreadPool.running p = [])) as [Hrun|Hrun].
    + destruct (ThreadPool.work_queue p) as [|i rest] eqn:Hq.
      * destruct Hwork as [H|[H|H]]; contradiction.
      * destruct Hst as [_ Hthr].
        assert (Hne : ThreadPool.threads p <> [])
          by (apply Hthr; left; rewrite Hq; discriminate).
        eexists. apply (ThreadPool.step_take 0 i rest [] p);
          [exact (idle_thread _ Hrun Hne) | exact Hq].
    + destruct (running_thread _ Hrun) as (t & i & Ht).
      eexists. exact (ThreadPool.step_finish t i [] p Ht).
  - eexists. apply ThreadPool.step_submit.
Qed.

Lemma pool_never_stuck_witness :
  ThreadPool.work_queue Demo.busy_pool.2 <> [] /\
  exists c', ThreadPool.step Demo.busy_pool c'.
Proof.
  assert (Hq : ThreadPool.work_queue Demo.busy_pool.2 <> [])
    by (vm_compute; discriminate).
  split; [exact Hq|].
  apply (pool_never_stuck 1 _ [0; 1] Demo.busy_pool eq_refl).
  - unfold Demo.busy_pool.
    eapply ThreadPool.reach_step.
    2: { apply (ThreadPool.step_submit 1 []). }
    eapply ThreadPool.reach_step.
    2: { apply (ThreadPool.step_take 0 0 [] [1]); reflexivity. }
    eapply ThreadPool.reach_step.
    2: { apply (ThreadPool.step_submit 0 [1]). }
    apply ThreadPool.reach_start.
  - right. left. exact Hq.
Defined.

End Further.
